(** * ziyan_eda_arizona: quartiles, the IQR outlier rule and the variable catalog

    A shallow embedding of [src/ziyan_eda_arizona.py]: the module constants
    ([EDA_VARS], [THEME_VARS], [VAR_LABELS]), [iqr_outliers],
    [theme_description], [interpretation_univariate] and
    [render_exploratory_eda] with its local function [bucket].
    [load_eda_data], which reads the warehouse, is present through the
    table it returns.  From [src/streamlit_app.py], which calls the
    page, the embedding has [extract_final_answer], over Python strings
    as lists of code points (section [Str]).

    Conventions of the embedding.
    - A metric value is a [float]: [Some q] for the finite number [q], held
      as an exact rational, and [None] for NaN, which is how pandas marks a
      missing value.  These definitions carry what the module does with
      missing values, rows, labels, comparisons and text.  Rounding,
      overflow and the infinities of binary64 are not part of them: the
      functions that do arithmetic are embedded a second time in module
      [B64], on the binary64 numbers themselves, and what is stated about
      the value of a cutoff, of the max/min quotient or about the order
      of the quartiles is stated there.
    - A pandas [Series] is the list of its (index label, value) pairs, a
      [DataFrame] the list of its rows together with the names of its
      numeric columns.  The string column "county" is the [county] field
      of a row and is never missing.
    - The pandas and numpy operations the module calls are modelled from
      their documented behaviour (sections [Series] and [DataFrame] below).
    - A function that calls streamlit returns the list of the [st_call]s
      it made, in order, and either its value or the exception it raised. *)

From Stdlib Require Import List String Ascii Bool Arith ZArith QArith Qround.
From Stdlib Require Import Lia Lqa Permutation Sorted.
From Stdlib Require Import Qpower.
From Stdlib Require Floats Uint63.
Import ListNotations.

Local Open Scope string_scope.
Local Open Scope Q_scope.

(* ------------------------------------------------------------------ *)
(** ** Floats *)

Definition float : Type := option Q.

Definition nan : float := None.

Definition isnan (x : float) : bool :=
  match x with
  | None => true
  | Some _ => false
  end.

Definition notna (x : float) : bool := negb (isnan x).

Definition Qgtb (a b : Q) : bool :=
  match a ?= b with
  | Gt => true
  | _ => false
  end.

(** Comparisons follow IEEE 754: every comparison with NaN is false. *)
Definition fgt (x y : float) : bool :=
  match x, y with
  | Some a, Some b => Qgtb a b
  | _, _ => false
  end.

Definition flt (x y : float) : bool := fgt y x.

Definition fle (x y : float) : bool :=
  match x, y with
  | Some a, Some b => Qle_bool a b
  | _, _ => false
  end.

Definition fge (x y : float) : bool := fle y x.

Definition fadd (x y : float) : float :=
  match x, y with
  | Some a, Some b => Some (a + b)
  | _, _ => nan
  end.

Definition fsub (x y : float) : float :=
  match x, y with
  | Some a, Some b => Some (a - b)
  | _, _ => nan
  end.

Definition fmul (x y : float) : float :=
  match x, y with
  | Some a, Some b => Some (a * b)
  | _, _ => nan
  end.

(** A division by zero has no finite result; the model returns NaN for it.
    The only division of the module is guarded by [vmin > 0]. *)
Definition fdiv (x y : float) : float :=
  match x, y with
  | Some a, Some b => if Qeq_bool b 0 then nan else Some (a / b)
  | _, _ => nan
  end.

(* ------------------------------------------------------------------ *)
(** ** Sorting *)

Section Sorting.

Context {A : Type}.
Variable leb : A -> A -> bool.

Fixpoint insert (x : A) (l : list A) : list A :=
  match l with
  | [] => [x]
  | y :: l' => if leb x y then x :: l else y :: insert x l'
  end.

(** Insertion sort; it is stable: of two equal keys the first stays
    first. *)
Fixpoint sort (l : list A) : list A :=
  match l with
  | [] => []
  | x :: l' => insert x (sort l')
  end.

Definition le_of (x y : A) : Prop := leb x y = true.

End Sorting.

(* ------------------------------------------------------------------ *)
(** ** Exceptions *)

(** The one exception the modelled code can raise: a lookup of a column
    name or of an index label that the frame does not have. *)
Inductive exception : Type :=
| KeyError.

Inductive outcome (A : Type) : Type :=
| Return (a : A)
| Raise (e : exception).

Arguments Return {A} a.
Arguments Raise {A} e.

(* ------------------------------------------------------------------ *)
(** ** Series *)

Module Series.

(** One (index label, value) pair per row. *)
Definition t : Type := list (nat * float).

Definition index (s : t) : list nat := map fst s.

(** [s.dropna()] *)
Definition dropna (s : t) : t :=
  filter (fun p => notna (snd p)) s.

(** [s.empty] *)
Definition empty (s : t) : bool :=
  match s with
  | [] => true
  | _ :: _ => false
  end.

(** The numbers of a series, NaN skipped: what the reductions below work
    on ([skipna=True] is the default of each). *)
Fixpoint numbers (s : t) : list Q :=
  match s with
  | [] => []
  | (_, Some v) :: s' => v :: numbers s'
  | (_, None) :: s' => numbers s'
  end.

(** [numpy.lib._function_base_impl._lerp]: the interpolation between two
    neighbours, computed from the nearer end. *)
Definition lerp (a b g : Q) : Q :=
  if Qle_bool (1 # 2) g then b - (b - a) * (1 - g) else a + (b - a) * g.

Definition clip (n : nat) (i : Z) : nat :=
  Z.to_nat (Z.max 0 (Z.min i (Z.of_nat n - 1))).

(** The quantile of a sorted array by numpy's default method, "linear":
    the virtual index [(n - 1) * q], its two neighbouring ranks clipped to
    the array, and [lerp] between them. *)
Definition quantile_sorted (a : list Q) (q : Q) : float :=
  match a with
  | [] => nan
  | a0 :: _ =>
      let n := List.length a in
      let virtual_index := inject_Z (Z.of_nat n - 1) * q in
      let previous := Qfloor virtual_index in
      let gamma := virtual_index - inject_Z previous in
      Some (lerp (nth (clip n previous) a a0)
                 (nth (clip n (previous + 1)) a a0)
                 gamma)
  end.

(** [s.quantile(q)] *)
Definition quantile (s : t) (q : Q) : float :=
  quantile_sorted (sort Qle_bool (numbers s)) q.

(** The median of a sorted array: the middle element, or the mean of the
    two middle elements when the count is even. *)
Definition median_sorted (a : list Q) : float :=
  match a with
  | [] => nan
  | a0 :: _ =>
      let n := List.length a in
      if Nat.even n
      then Some ((nth (n / 2 - 1) a a0 + nth (n / 2) a a0) / 2)
      else Some (nth (n / 2) a a0)
  end.

(** [s.median()] *)
Definition median (s : t) : float :=
  median_sorted (sort Qle_bool (numbers s)).

Definition Qminb (a b : Q) : Q := if Qle_bool a b then a else b.

Definition Qmaxb (a b : Q) : Q := if Qle_bool a b then b else a.

(** [s.min()] and [s.max()] *)
Definition min (s : t) : float :=
  match numbers s with
  | [] => nan
  | v :: l => Some (fold_left Qminb l v)
  end.

Definition max (s : t) : float :=
  match numbers s with
  | [] => nan
  | v :: l => Some (fold_left Qmaxb l v)
  end.

(** The order of [sort_values]: ascending, NaN last. *)
Definition value_leb (p q : nat * float) : bool :=
  match snd p, snd q with
  | Some a, Some b => Qle_bool a b
  | _, None => true
  | None, Some _ => false
  end.

(** [s.sort_values()].  pandas leaves the order of equal values to the
    sorting algorithm; what is proved below about the sorted rows holds
    for every ascending order of them. *)
Definition sort_values (s : t) : t := sort value_leb s.

(** [s > c]: the boolean series of the comparison, on the same index. *)
Definition gt (s : t) (c : float) : list (nat * bool) :=
  map (fun p => (fst p, fgt (snd p) c)) s.

End Series.

(* ------------------------------------------------------------------ *)
(** ** DataFrame *)

Record Row : Type := mkRow {
  label : nat;
  county : string;
  cell : string -> float
}.

Module DataFrame.

(** [columns] names the numeric columns of the frame; [cell r c] is read
    only for a [c] among them. *)
Record t : Type := mk {
  columns : list string;
  rows : list Row
}.

Definition has_column (df : t) (col : string) : bool :=
  existsb (String.eqb col) (columns df).

(** [len(df)] *)
Definition len (df : t) : nat := List.length (rows df).

(** [df.empty] *)
Definition empty (df : t) : bool :=
  match rows df with
  | [] => true
  | _ :: _ => false
  end.

(** The series of a column: the cell of each row under the row's label. *)
Definition column (df : t) (col : string) : Series.t :=
  map (fun r => (label r, cell r col)) (rows df).

(** [df[col]] *)
Definition getitem (df : t) (col : string) : outcome Series.t :=
  if has_column df col
  then Return (column df col)
  else Raise KeyError.

(** [df[["county", col]]] *)
Definition getitem_cols (df : t) (col : string) : outcome t :=
  if has_column df col
  then Return (mk [col] (rows df))
  else Raise KeyError.

(** [df[mask]] for a boolean series on the index of [df]. *)
Definition getitem_mask (df : t) (mask : list (nat * bool)) : t :=
  mk (columns df)
     (map fst (filter (fun rb => snd (snd rb)) (combine (rows df) mask))).

(** [df.head(n)] and [df.tail(n)] *)
Definition head (n : nat) (df : t) : t :=
  mk (columns df) (firstn n (rows df)).

Definition tail (n : nat) (df : t) : t :=
  mk (columns df) (skipn (List.length (rows df) - n) (rows df)).

(** The rows of [df] that carry the index label [l]; a label the index
    does not have is a [KeyError]. *)
Definition loc_label (df : t) (l : nat) : outcome (list Row) :=
  match filter (fun r => Nat.eqb (label r) l) (rows df) with
  | [] => Raise KeyError
  | r :: rs => Return (r :: rs)
  end.

Fixpoint loc_labels (df : t) (labels : list nat) : outcome (list Row) :=
  match labels with
  | [] => Return []
  | l :: labels' =>
      match loc_label df l with
      | Raise e => Raise e
      | Return rs =>
          match loc_labels df labels' with
          | Raise e => Raise e
          | Return rs' => Return (rs ++ rs')%list
          end
      end
  end.

(** [df.loc[labels, ["county", col]]] *)
Definition loc (df : t) (labels : list nat) (col : string) : outcome t :=
  if has_column df col
  then match loc_labels df labels with
       | Raise e => Raise e
       | Return rs => Return (mk [col] rs)
       end
  else Raise KeyError.

(** [df.dropna()]: the rows with no missing cell. *)
Definition dropna (df : t) : t :=
  mk (columns df)
     (filter (fun r => forallb (fun c => notna (cell r c)) (columns df)) (rows df)).

(** The order of [sort_values(by=col, ascending=False)]: descending, NaN
    last. *)
Definition desc_leb (col : string) (r1 r2 : Row) : bool :=
  match cell r1 col, cell r2 col with
  | Some a, Some b => Qle_bool b a
  | _, None => true
  | None, Some _ => false
  end.

Definition sort_values_desc (df : t) (col : string) : outcome t :=
  if has_column df col
  then Return (mk (columns df) (sort (desc_leb col) (rows df)))
  else Raise KeyError.

Fixpoint relabel (i : nat) (rs : list Row) : list Row :=
  match rs with
  | [] => []
  | r :: rs' => mkRow i (county r) (cell r) :: relabel (S i) rs'
  end.

(** [df.reset_index(drop=True)] *)
Definition reset_index (df : t) : t :=
  mk (columns df) (relabel 0 (rows df)).

(** The frame [pd.DataFrame({"county": ..., col: ...})] of a list of
    (county, value) pairs, on the default index 0, 1, ... *)
Definition of_pairs (col : string) (data : list (string * float)) : t :=
  mk [col]
     (relabel 0
        (map (fun cv => mkRow 0 (fst cv)
                          (fun c => if String.eqb c col then snd cv else nan))
             data)).

(** The (county, value) pairs of a frame, as a table shows them. *)
Definition pairs (df : t) (col : string) : list (string * float) :=
  map (fun r => (county r, cell r col)) (rows df).

End DataFrame.

(* ------------------------------------------------------------------ *)
(** ** The calls to streamlit *)

(** A piece of displayed text: a literal, a number put through a format
    specification such as [{median:,.1f}], or an integer count. *)
Inductive piece : Type :=
| Lit (s : string)
| Fmt (spec : string) (x : float)
| Count (n : nat).

Definition text : Type := list piece.

(** A displayed table: the two column titles and the (county, value)
    lines, the index dropped. *)
Record table : Type := mkTable {
  header : string * string;
  body : list (string * float)
}.

(** The bar chart: one bar per line (county, value, group) and the title
    of the value axis. *)
Record chart : Type := mkChart {
  bars : list (string * float * string);
  y_title : string
}.

Inductive st_call : Type :=
| st_title (s : string)
| st_subheader (s : string)
| st_caption (x : text)
| st_write (x : text)
| st_markdown (x : text)
| st_error (s : string)
| st_columns (n : nat)
| st_table (x : table)
| st_dataframe (x : table)
| st_altair_chart (c : chart).

(** A computation that calls streamlit: the calls made, in order, and the
    value returned or the exception raised. *)
Definition st (A : Type) : Type := (list st_call * outcome A)%type.

Definition ret {A : Type} (a : A) : st A := ([], Return a).

Definition bind {A B : Type} (m : st A) (k : A -> st B) : st B :=
  match m with
  | (out, Return a) => let (out', r) := k a in ((out ++ out')%list, r)
  | (out, Raise e) => (out, Raise e)
  end.

Definition call (c : st_call) : st unit := ([c], Return tt).

Definition lift {A : Type} (r : outcome A) : st A := ([], r).

Definition calls {A : Type} (m : st A) : list st_call := fst m.

Definition result {A : Type} (m : st A) : outcome A := snd m.

Declare Scope st_scope.
Delimit Scope st_scope with st.
Notation "x <- m ;; k" := (bind m (fun x => k))
  (at level 61, m at next level, right associativity) : st_scope.
Notation "m ;; k" := (bind m (fun _ => k))
  (at level 61, right associativity) : st_scope.

(** The line feed and the double quote, which a string literal here
    cannot hold. *)
Definition newline : string := String (ascii_of_nat 10) EmptyString.

Definition dquote : string := String (ascii_of_nat 34) EmptyString.

(** [sep.join(lines)] *)
Fixpoint join (sep : text) (lines : list text) : text :=
  match lines with
  | [] => []
  | [l] => l
  | l :: ls => (l ++ sep ++ join sep ls)%list
  end.

(* ------------------------------------------------------------------ *)
(** ** Module constants *)

(** A Python [dict] literal, in the order it is written. *)
Definition dict (V : Type) : Type := list (string * V).

Fixpoint lookup {V : Type} (d : dict V) (k : string) : option V :=
  match d with
  | [] => None
  | (k', v) :: d' => if String.eqb k k' then Some v else lookup d' k
  end.

(** [d.get(k, default)] *)
Definition get {V : Type} (d : dict V) (k : string) (default : V) : V :=
  match lookup d k with
  | Some v => v
  | None => default
  end.

(** [d[k]] *)
Definition getitem {V : Type} (d : dict V) (k : string) : outcome V :=
  match lookup d k with
  | Some v => Return v
  | None => Raise KeyError
  end.

Definition keys {V : Type} (d : dict V) : list string := map fst d.

(** [x in xs] for a list of strings. *)
Definition mem (x : string) (xs : list string) : bool :=
  existsb (String.eqb x) xs.

Definition EDA_VARS : list string :=
  [ "hospitals_per_10k";
    "beds_per_10k";
    "num_hospitals";
    "population_total";
    "total_capacity";
    "mp_pov150_mean";
    "mp_uninsur_mean";
    "mp_noveh_mean";
    "e_heat_risk_mean";
    "max_temp_2022";
    "e_daypop_mean" ].

Definition THEME_VARS : dict (list string) :=
  [ ("Capacity and access",
      [ "hospitals_per_10k";
        "beds_per_10k";
        "num_hospitals";
        "total_capacity" ]);
    ("Population and daytime presence",
      [ "population_total";
        "e_daypop_mean" ]);
    ("Social barriers",
      [ "mp_pov150_mean";
        "mp_uninsur_mean";
        "mp_noveh_mean" ]);
    ("Heat and climate",
      [ "e_heat_risk_mean";
        "max_temp_2022" ]) ].

Definition VAR_LABELS : dict string :=
  [ ("hospitals_per_10k", "Hospitals per 10k residents");
    ("beds_per_10k", "Beds per 10k residents");
    ("num_hospitals", "Number of hospitals");
    ("population_total", "Total population");
    ("total_capacity", "Total bed capacity");
    ("mp_pov150_mean", "Poverty (relative to average)");
    ("mp_uninsur_mean", "Uninsured (relative to average)");
    ("mp_noveh_mean", "No-vehicle households (relative to average)");
    ("e_heat_risk_mean", "Heat risk index");
    ("max_temp_2022", "Maximum temperature (2022)");
    ("e_daypop_mean", "Daytime population");
    ("is_medical_desert", "Medical desert flag") ].

(** The themes whose list in [THEME_VARS] holds the variable. *)
Definition themes_of (var : string) : list string :=
  map fst (filter (fun kv => mem var (snd kv)) THEME_VARS).

(* ------------------------------------------------------------------ *)
(** ** iqr_outliers *)

(** Returns the cutoff value and the frame of the outlier counties. *)
Definition iqr_outliers (df : DataFrame.t) (col : string)
  : outcome (float * DataFrame.t) :=
  match DataFrame.getitem df col with
  | Raise e => Raise e
  | Return column =>
      let s := Series.dropna column in
      if Series.empty s then Return (nan, DataFrame.head 0 df)
      else
        let q1 := Series.quantile s (1 # 4) in
        let q3 := Series.quantile s (3 # 4) in
        let cutoff := fadd q3 (fmul (Some (3 # 2)) (fsub q3 q1)) in
        let outliers := DataFrame.getitem_mask df (Series.gt column cutoff) in
        Return (cutoff, outliers)
  end.

Definition theme_description (theme : string) : string :=
  if String.eqb theme "Capacity and access" then
    "Do counties have enough hospitals and beds for the people who live there?"
  else if String.eqb theme "Population and daytime presence" then
    "Where are people physically present when heat events occur?"
  else if String.eqb theme "Social barriers" then
    "How do poverty, insurance coverage and transport barriers differ across counties?"
  else if String.eqb theme "Heat and climate" then
    "How intense is the heat that each county experiences?"
  else "".

(* ------------------------------------------------------------------ *)
(** ** interpretation_univariate *)

(** "What this variable measures": the first chain of comparisons on
    [var], which binds [var_explanation]. *)
Definition var_explanation (var : string) : string :=
  if String.eqb var "hospitals_per_10k" then
    "Number of hospitals per 10,000 residents in each county. "
    ++ "Higher values mean more facilities relative to population."
  else if String.eqb var "beds_per_10k" then
    "Number of hospital beds per 10,000 residents. "
    ++ "Higher values indicate greater inpatient capacity per person."
  else if String.eqb var "num_hospitals" then
    "Total count of hospitals in the county."
  else if String.eqb var "population_total" then
    "Estimated resident population in the county."
  else if String.eqb var "total_capacity" then
    "Total number of hospital beds across all hospitals in the county."
  else if mem var ["mp_pov150_mean"; "mp_uninsur_mean"; "mp_noveh_mean"] then
    "These variables are centred around zero and represent relative vulnerability. "
    ++ "Values above 0 mean the county has more of this condition than the reference average; "
    ++ "values below 0 mean less than average."
  else if String.eqb var "e_heat_risk_mean" then
    "Index summarising average heat risk; higher values mean greater heat exposure."
  else if String.eqb var "max_temp_2022" then
    "Maximum recorded temperature in 2022 for the county."
  else if String.eqb var "e_daypop_mean" then
    "Estimated daytime population, including residents plus commuters and visitors present during the day."
  else
    "County-level summary for the metric shown on the chart.".

(** "Why this is relevant for heat and medical access": the second chain,
    which binds [text]. *)
Definition why_text (var : string) : string :=
  if String.eqb var "hospitals_per_10k" then
    "Low values indicate potential gaps in facility access. "
    ++ "During extreme heat, residents may face longer travel times and delays before reaching care."
  else if String.eqb var "beds_per_10k" then
    "Low bed counts per resident suggest limited capacity to admit patients. "
    ++ "Counties with both high heat risk and low beds per 10k may overload quickly."
  else if String.eqb var "num_hospitals" then
    "Counties with very few hospitals have little redundancy. "
    ++ "If one facility is unavailable, options for residents are limited."
  else if String.eqb var "population_total" then
    "High-population counties require more infrastructure. "
    ++ "If population is high but hospital access metrics are low, the system may be strained."
  else if String.eqb var "total_capacity" then
    "Total bed capacity describes the size of the system. "
    ++ "Low-capacity counties may struggle to manage larger numbers of heat-related admissions."
  else if String.eqb var "mp_pov150_mean" then
    "Positive values indicate more residents near or below the poverty line than average. "
    ++ "Financial constraints can limit access to cooling, transport and timely care."
  else if String.eqb var "mp_uninsur_mean" then
    "Positive values indicate more uninsured residents than average. "
    ++ "Uninsured individuals often delay care, which can worsen outcomes during heat events."
  else if String.eqb var "mp_noveh_mean" then
    "Positive values indicate more households without vehicles than average. "
    ++ "These residents may find it harder to reach hospitals when they need urgent care."
  else if String.eqb var "e_heat_risk_mean" then
    "Higher scores indicate greater exposure to dangerous heat. "
    ++ "Counties combining high heat risk with low capacity or high social barriers are of particular concern."
  else if String.eqb var "max_temp_2022" then
    "High maximum temperatures increase physiological stress and can trigger more heat-related illness."
  else if String.eqb var "e_daypop_mean" then
    "High daytime population means demand for emergency services may be higher than resident population alone suggests."
  else
    "This metric captures one aspect of county-level risk or capacity that interacts with heat conditions.".

(** "Possible use in a machine-learning model": the third chain, whose
    branches each write one text. *)
Definition model_text (var : string) : string :=
  if mem var ["hospitals_per_10k"; "beds_per_10k"; "num_hospitals"; "total_capacity"] then
    "- These variables summarise health system capacity." ++ newline
    ++ "- In a model predicting heat-related hospitalisations by county, "
    ++ "they help explain which counties are more likely to experience strain when demand increases."
  else if mem var ["mp_pov150_mean"; "mp_uninsur_mean"; "mp_noveh_mean"] then
    "- These variables represent social and economic barriers to care." ++ newline
    ++ "- Using them as features lets the model capture how poverty, insurance and transport "
    ++ "affect outcomes, beyond physical capacity alone."
  else if mem var ["e_heat_risk_mean"; "max_temp_2022"] then
    "- These are exposure variables that quantify how extreme the heat is." ++ newline
    ++ "- Combined with capacity and vulnerability variables, they help identify counties where high exposure "
    ++ "and low access overlap."
  else if mem var ["population_total"; "e_daypop_mean"] then
    "- These variables describe the size of the population at risk." ++ newline
    ++ "- They can be used as predictors and also for constructing outcome rates "
    ++ "(for example, hospitalisations per 10,000 residents)."
  else
    "- This variable can be included as a county-level feature after appropriate scaling or standardisation.".

Definition insight_callout : string :=
  newline
  ++ "<div class=" ++ dquote ++ "insight-callout" ++ dquote ++ ">" ++ newline
  ++ "The bar chart above is a ranking: counties on the left have the highest values on this metric,"
  ++ newline
  ++ "and counties on the right have the lowest. This makes it easier to see which counties consistently"
  ++ newline
  ++ "sit at the top or bottom." ++ newline
  ++ "</div>" ++ newline.

(** [ratio], as lines 186-190 of [interpretation_univariate] set it:
    [None], or the quotient [vmax / vmin] when [vmin > 0] and
    [1.0 < r <= 10.0]. *)
Definition ratio_of (vmin vmax : float) : option float :=
  if fgt vmin (Some 0) then
    let r := fdiv vmax vmin in
    if flt (Some 1) r && fle r (Some 10) then Some r else None
  else None.

(** [bullets], as lines 237-245 build it: the lines of "How counties
    compare on this metric", the last one only when [ratio] is set. *)
Definition bullets (label : string) (median q1 q3 vmin vmax : float)
    (ratio : option float) : list text :=
  ([ [Lit "- A typical county is around **"; Fmt ",.1f" median; Lit " ";
      Lit label; Lit "**."];
     [Lit "- Half of counties fall between **"; Fmt ",.1f" q1;
      Lit "** and **"; Fmt ",.1f" q3; Lit "**."];
     [Lit "- The lowest observed value is **"; Fmt ",.1f" vmin;
      Lit "**, and the highest is **"; Fmt ",.1f" vmax; Lit "**."] ]
   ++ match ratio with
      | Some r =>
          [ [Lit "- The highest county is about **"; Fmt ",.1f" r;
             Lit " times** the lowest on this metric."] ]
      | None => []
      end)%list.

(** [frame.rename(columns={"county": "County", var: label}).reset_index(drop=True)],
    as handed to [st.table] or [st.dataframe]. *)
Definition renamed (frame : DataFrame.t) (var label : string) : table :=
  mkTable ("County", label) (DataFrame.pairs frame var).

(** Explains one variable in four parts: what it measures, how counties
    are distributed, why it matters, how a model could use it. *)
Definition interpretation_univariate (var : string) (series : Series.t)
    (df : DataFrame.t) : st unit :=
  (let s := Series.dropna series in
   if Series.empty s then
     call (st_write [Lit "No data available for this variable."])
   else
     let label := get VAR_LABELS var var in
     let median := Series.median s in
     let q1 := Series.quantile s (1 # 4) in
     let q3 := Series.quantile s (3 # 4) in
     let vmin := Series.min s in
     let vmax := Series.max s in
     let ratio := ratio_of vmin vmax in
     sorted_df <- lift (DataFrame.loc df (Series.index (Series.sort_values s)) var) ;;
     let bottom3 := DataFrame.head 3 sorted_df in
     let top3 := DataFrame.tail 3 sorted_df in
     call (st_markdown [Lit "#### What this variable measures"]) ;;
     call (st_write [Lit (var_explanation var)]) ;;
     call (st_markdown [Lit "#### How counties compare on this metric"]) ;;
     call (st_write (join [Lit newline] (bullets label median q1 q3 vmin vmax ratio))) ;;
     call (st_markdown [Lit insight_callout]) ;;
     call (st_columns 2) ;;
     call (st_markdown [Lit "**Counties with the highest values (top 3)**"]) ;;
     call (st_table (renamed top3 var label)) ;;
     call (st_markdown [Lit "**Counties with the lowest values (bottom 3)**"]) ;;
     call (st_table (renamed bottom3 var label)) ;;
     call (st_markdown [Lit "#### Why this is relevant for heat and medical access"]) ;;
     call (st_write [Lit (why_text var)]) ;;
     call (st_markdown [Lit "#### Possible use in a machine-learning model"]) ;;
     call (st_write [Lit (model_text var)]))%st.

(* ------------------------------------------------------------------ *)
(** ** render_exploratory_eda *)

(** The local function [bucket] of [render_exploratory_eda]; [q1] and [q3]
    are the variables of the enclosing function it reads. *)
Definition bucket (q1 q3 : float) (x : float) : string :=
  if fge x q3 then "Top 25%"
  else if fle x q1 then "Bottom 25%"
  else "Middle".

Definition outlier_note (cutoff : float) (label : string) : text :=
  [ Lit ("We use something called the interquartile range (IQR) to highlight counties that are much higher than a typical county. "
         ++ newline
         ++ "        This helps us see which places are not just high but unusually high on this metric.  "
         ++ newline
         ++ "        Any county above approximately **");
    Fmt ",.2f" cutoff; Lit " "; Lit label;
    Lit "** is higher than would be expected from a typical spread." ].

Section Page.

(** The two widgets of the page return what the user picked among the
    options they were given. *)
Variable radio : list string -> string.
Variable selectbox : list string -> string.

(** Draws the page.  [loaded] is what [load_eda_data()] returned: the
    county table, or [None] when the warehouse could not be read. *)
Definition render_exploratory_eda (loaded : option DataFrame.t) : st unit :=
  (call (st_title ("Exploratory EDA: "
                   ++ "Heat, Population, SVI, Access to Transportation and State-licensed Hospital.")) ;;
   call (st_write
     [Lit ("This section explores how Arizona counties differ in hospital capacity, social vulnerability, and exposure to heat. "
           ++ "The exploratory view focuses on one variable at a time so it is easy to see which counties are consistently better or worse off.")]) ;;
   match loaded with
   | None => ret tt
   | Some df =>
     call (st_caption [Lit "Loaded data for "; Count (DataFrame.len df);
                       Lit " counties in Arizona."]) ;;
     call (st_markdown [Lit "---"]) ;;
     call (st_subheader "1. Click to choose a theme and metric") ;;
     let available_vars := filter (DataFrame.has_column df) EDA_VARS in
     let theme_var_map :=
       map (fun kv => (fst kv, filter (fun v => mem v available_vars) (snd kv)))
           THEME_VARS in
     let theme_var_map :=
       filter (fun kv => match snd kv with [] => false | _ :: _ => true end)
              theme_var_map in
     match theme_var_map with
     | [] => call (st_error "No variables found. Check EDA_VARS and column mappings.")
     | _ :: _ =>
       let theme := radio (keys theme_var_map) in
       call (st_caption [Lit (theme_description theme)]) ;;
       theme_vars <- lift (getitem theme_var_map theme) ;;
       let var := selectbox theme_vars in
       let label := get VAR_LABELS var var in
       s <- lift (DataFrame.getitem df var) ;;
       call (st_markdown [Lit "---"]) ;;
       call (st_subheader "2. County ranking on the selected metric") ;;
       let s_non := Series.dropna s in
       if Series.empty s_non then
         call (st_write [Lit "No data for this variable."])
       else
         let q1 := Series.quantile s_non (1 # 4) in
         let q3 := Series.quantile s_non (3 # 4) in
         selected <- lift (DataFrame.getitem_cols df var) ;;
         sorted <- lift (DataFrame.sort_values_desc (DataFrame.dropna selected) var) ;;
         let df_bar := DataFrame.reset_index sorted in
         let group := map (fun r => bucket q1 q3 (cell r var)) (DataFrame.rows df_bar) in
         call (st_altair_chart
                 (mkChart (combine (DataFrame.pairs df_bar var) group) label)) ;;
         call (st_markdown [Lit "---"]) ;;
         call (st_subheader "3. Interpretation") ;;
         interpretation_univariate var s df ;;
         call (st_markdown [Lit "#### Counties that are unusually high (IQR rule)"]) ;;
         r <- lift (iqr_outliers df var) ;;
         let cutoff := fst r in
         let outliers := snd r in
         if DataFrame.empty outliers || isnan cutoff then
           call (st_write [Lit "No counties appear as strong high outliers on this metric."])
         else
           call (st_write (outlier_note cutoff label)) ;;
           selected <- lift (DataFrame.getitem_cols outliers var) ;;
           sorted <- lift (DataFrame.sort_values_desc selected var) ;;
           call (st_dataframe (renamed sorted var label))
     end
   end)%st.

End Page.

(** The order on rows that [s.sort_values()] induces for the series [s]
    of the column [var]. *)
Definition row_leb (var : string) (r1 r2 : Row) : bool :=
  Series.value_leb (label r1, cell r1 var) (label r2, cell r2 var).

(* ------------------------------------------------------------------ *)
(** ** Reading the calls *)




(** The tables handed to [st.table], in the order of the calls. *)
Fixpoint tables (cs : list st_call) : list table :=
  match cs with
  | [] => []
  | st_table x :: cs' => x :: tables cs'
  | _ :: cs' => tables cs'
  end.

(** The texts handed to [st.write], in the order of the calls. *)
Fixpoint written (cs : list st_call) : list text :=
  match cs with
  | [] => []
  | st_write x :: cs' => x :: written cs'
  | _ :: cs' => written cs'
  end.

(* ------------------------------------------------------------------ *)
(** ** Tables used as examples *)

Definition example_table : DataFrame.t :=
  DataFrame.of_pairs "value"
    [("A", Some 10); ("B", Some 20); ("C", Some 30); ("D", Some 40);
     ("E", Some 1000)].


Definition single_row_table : DataFrame.t :=
  DataFrame.of_pairs "value" [("A", Some 7)].


Definition mixed_table : DataFrame.t :=
  DataFrame.of_pairs "value"
    [("A", Some 1); ("B", nan); ("C", Some 2); ("D", Some 3); ("E", Some 100);
     ("F", nan)].

(** A table as the page loads it: one of the variables of [EDA_VARS]. *)
Definition page_table : DataFrame.t :=
  DataFrame.of_pairs "beds_per_10k"
    [("A", Some 7); ("B", nan); ("C", Some 3); ("D", Some 100)].

(** The first option, as a widget returns before the user picks another. *)
Definition first_option (options : list string) : string := hd "" options.

(** The example table of five counties, under a name the page knows. *)
Definition outlier_page_table : DataFrame.t :=
  DataFrame.of_pairs "beds_per_10k"
    [("A", Some 10); ("B", Some 20); ("C", Some 30); ("D", Some 40);
     ("E", Some 1000)].

(** A widget that answers the first option, and something that is no
    option when it is given none. *)
Definition first_or_none (options : list string) : string :=
  match options with
  | [] => "(no option)"
  | o :: _ => o
  end.

Definition foo_table : DataFrame.t :=
  DataFrame.of_pairs "foo" [("A", Some 1); ("B", Some 4); ("C", nan); ("D", Some 2)].

(* ------------------------------------------------------------------ *)
(** ** extract_final_answer (streamlit_app.py) *)

(** What a string operation can raise. *)
Inductive str_error : Type :=
| ValueError
| IndexError.

Inductive attempt (A : Type) : Type :=
| Value (a : A)
| Fails (e : str_error).

Arguments Value {A} a.
Arguments Fails {A} e.

Definition and_then {A B : Type} (m : attempt A) (k : A -> attempt B) : attempt B :=
  match m with
  | Value a => k a
  | Fails e => Fails e
  end.

Module Str.

(** A Python [str]: the list of its code points. *)
Definition t : Type := list N.

Definition of_string (s : string) : t :=
  map N_of_ascii (list_ascii_of_string s).

(** [c.isspace()]: the code points Python counts as whitespace. *)
Definition isspace (c : N) : bool :=
  ((9 <=? c) && (c <=? 13) || (28 <=? c) && (c <=? 32)
   || (c =? 133) || (c =? 160) || (c =? 5760)
   || (8192 <=? c) && (c <=? 8202)
   || (c =? 8232) || (c =? 8233) || (c =? 8239) || (c =? 8287)
   || (c =? 12288))%N.

(** [s.startswith(sep)] *)
Fixpoint startswith (s sep : t) {struct sep} : bool :=
  match sep, s with
  | [], _ => true
  | _ :: _, [] => false
  | c :: sep', d :: s' => N.eqb c d && startswith s' sep'
  end.

(** The text before and the text after the first occurrence of [sep] in
    [s], or [None] when [sep] does not occur. *)
Fixpoint find (sep s : t) {struct s} : option (t * t) :=
  if startswith s sep then Some ([], skipn (List.length sep) s)
  else match s with
       | [] => None
       | c :: s' =>
           match find sep s' with
           | Some (before, after) => Some (c :: before, after)
           | None => None
           end
       end.

(** [sep in s] *)
Definition contains (sep s : t) : bool :=
  match find sep s with
  | Some _ => true
  | None => false
  end.

(** The pieces of [s] between the occurrences of [sep], found from the
    left and not overlapping; [n] bounds the number of occurrences. *)
Fixpoint split_upto (n : nat) (sep s : t) : list t :=
  match n with
  | O => [s]
  | S n' =>
      match find sep s with
      | Some (before, after) => before :: split_upto n' sep after
      | None => [s]
      end
  end.

(** [s.split(sep)]: an empty separator is a [ValueError]; otherwise [s]
    has at most [len(s)] occurrences of [sep]. *)
Definition split (sep s : t) : attempt (list t) :=
  match sep with
  | [] => Fails ValueError
  | _ :: _ => Value (split_upto (List.length s) sep s)
  end.

(** [pieces[i]], with Python's negative indices. *)
Definition item (pieces : list t) (i : Z) : attempt t :=
  let n := Z.of_nat (List.length pieces) in
  let j := if (i <? 0)%Z then (n + i)%Z else i in
  if ((0 <=? j) && (j <? n))%Z
  then match nth_error pieces (Z.to_nat j) with
       | Some p => Value p
       | None => Fails IndexError
       end
  else Fails IndexError.

Fixpoint lstrip (s : t) : t :=
  match s with
  | [] => []
  | c :: s' => if isspace c then lstrip s' else s
  end.

Definition rstrip (s : t) : t := rev (lstrip (rev s)).

(** [s.strip()] *)
Definition strip (s : t) : t := rstrip (lstrip s).

(** [s.partition(sep)[0]]: the text before the first occurrence of [sep],
    or all of [s] when [sep] does not occur. *)
Definition before (sep s : t) : t :=
  match find sep s with
  | Some (b, _) => b
  | None => s
  end.

(** A text with no whitespace at either end. *)
Definition trimmed (s : t) : Prop :=
  (forall c s', s = c :: s' -> isspace c = false) /\
  (forall c s', s = (s' ++ [c])%list -> isspace c = false).

End Str.

Definition final_answer_open : Str.t := Str.of_string "<final_answer>".

Definition final_answer_close : Str.t := Str.of_string "</final_answer>".

Definition think_open : Str.t := Str.of_string "<think>".

Definition think_close : Str.t := Str.of_string "</think>".

Definition extract_final_answer (text : Str.t) : attempt Str.t :=
  if Str.contains final_answer_open text then
    and_then (Str.split final_answer_open text) (fun pieces =>
    and_then (Str.item pieces 1) (fun answer =>
    and_then (Str.split final_answer_close answer) (fun pieces' =>
    and_then (Str.item pieces' 0) (fun answer' =>
    Value (Str.strip answer')))))
  else if Str.contains think_open text then
    and_then (Str.split think_close text) (fun pieces =>
    and_then (Str.item pieces (-1)) (fun answer =>
    Value (Str.strip answer)))
  else Value text.

(* ------------------------------------------------------------------ *)
(** ** The numbers of the machine *)

(** The definitions above hold a number as an exact rational.  What the
    module computes with pandas and numpy it computes in binary64, where a
    sum can round, a difference can overflow to an infinity and
    [inf - inf] is NaN.  Module [B64] embeds the functions that do
    arithmetic once more, on the binary64 numbers of the kernel
    ([PrimFloat.float]): the statements about a cutoff, a quotient or the
    order of the quartiles are made there. *)

Module B64.

Import PrimFloat.
Local Open Scope float_scope.

(** [pd.isna], [np.isnan] *)
Definition isnan (x : PrimFloat.float) : bool := is_nan x.

Definition notna (x : PrimFloat.float) : bool := negb (isnan x).

(** The integer [z] as a float, for [z] below 2^63 in magnitude. *)
Definition of_Z (z : Z) : PrimFloat.float :=
  match z with
  | Z0 => 0
  | Zpos p => of_uint63 (Uint63.of_Z (Zpos p))
  | Zneg p => - of_uint63 (Uint63.of_Z (Zpos p))
  end.

(** The fraction [g] as a float: the quotient of its two terms, rounded
    once. *)
Definition of_Q (g : Q) : PrimFloat.float :=
  of_Z (Qnum g) / of_Z (Zpos (Qden g)).

(** The value of a finite float, [None] for NaN and the infinities. *)
Definition value (x : PrimFloat.float) : option Q :=
  match FloatOps.Prim2SF x with
  | SpecFloat.S754_zero _ => Some 0%Q
  | SpecFloat.S754_finite s m e =>
      Some ((if s then inject_Z (Zneg m) else inject_Z (Zpos m)) * Qpower 2 e)%Q
  | SpecFloat.S754_infinity _ | SpecFloat.S754_nan => None
  end.


(* ------------------------------------------------------------------ *)

Module Series.

Definition t : Type := list (nat * PrimFloat.float).

Definition index (s : t) : list nat := map fst s.

(** [s.dropna()] *)
Definition dropna (s : t) : t :=
  filter (fun p => notna (snd p)) s.

(** [s.empty] *)
Definition empty (s : t) : bool :=
  match s with
  | [] => true
  | _ :: _ => false
  end.

(** The numbers of a series, NaN skipped. *)
Definition numbers (s : t) : list PrimFloat.float :=
  map snd (dropna s).

(** [numpy.lib._function_base_impl._lerp]:
    [a + (b - a) * t], and [b - (b - a) * (1 - t)] where [t >= 0.5]. *)
Definition lerp (a b t : PrimFloat.float) : PrimFloat.float :=
  if 0.5 <=? t then b - (b - a) * (1 - t) else a + (b - a) * t.

(** The quantile of a sorted array by numpy's default method, "linear"
    ([_quantile] with [_get_indexes] and [_get_gamma]): the virtual index
    [(n - 1) * q]; its floor and the next rank, both replaced by the last
    rank (index -1) when the virtual index reaches it; gamma, the virtual
    index less the previous index; and [lerp] between the two values.
    The virtual index of the two quantiles the module asks for, 0.25 and
    0.75, is a multiple of 1/4 and exact in binary64 for every array of
    fewer than 2^51 values: it is computed here as a fraction and handed
    to [lerp] as the float of that fraction. *)
Definition quantile_sorted (a : list PrimFloat.float) (q : Q) : PrimFloat.float :=
  match a with
  | [] => nan
  | a0 :: _ =>
      let n := Z.of_nat (List.length a) in
      let virtual_index := (inject_Z (n - 1) * q)%Q in
      let previous := Qfloor virtual_index in
      if Qle_bool (inject_Z (n - 1)) virtual_index then
        let last := nth (Z.to_nat (n - 1)) a a0 in
        lerp last last (of_Q (virtual_index - inject_Z (-1)))
      else if Qle_bool 0 virtual_index then
        lerp (nth (Z.to_nat previous) a a0)
             (nth (Z.to_nat (previous + 1)) a a0)
             (of_Q (virtual_index - inject_Z previous))
      else
        lerp a0 a0 (of_Q virtual_index)
  end.

(** [s.quantile(q)] *)
Definition quantile (s : t) (q : Q) : PrimFloat.float :=
  quantile_sorted (sort leb (numbers s)) q.

(** [numpy.median]: the mean of the middle element, or of the two middle
    elements when the count is even. *)
Definition median_sorted (a : list PrimFloat.float) : PrimFloat.float :=
  match a with
  | [] => nan
  | a0 :: _ =>
      let n := List.length a in
      if Nat.even n
      then (nth (n / 2 - 1) a a0 + nth (n / 2) a a0) / 2
      else nth (n / 2) a a0
  end.

(** [s.median()] *)
Definition median (s : t) : PrimFloat.float :=
  median_sorted (sort leb (numbers s)).

(** [s.min()] and [s.max()] *)
Definition min (s : t) : PrimFloat.float :=
  match numbers s with
  | [] => nan
  | v :: l => fold_left (fun m x => if x <? m then x else m) l v
  end.

Definition max (s : t) : PrimFloat.float :=
  match numbers s with
  | [] => nan
  | v :: l => fold_left (fun m x => if m <? x then x else m) l v
  end.

(** The order of [sort_values]: ascending, NaN last. *)
Definition value_leb (p q : nat * PrimFloat.float) : bool :=
  if isnan (snd q) then true
  else if isnan (snd p) then false
  else snd p <=? snd q.

(** [s.sort_values()] *)
Definition sort_values (s : t) : t := sort value_leb s.

(** [s > c]: the boolean series of the comparison, on the same index. *)
Definition gt (s : t) (c : PrimFloat.float) : list (nat * bool) :=
  map (fun p => (fst p, c <? snd p)) s.

(** The series with each finite value as an exact rational; what has no
    value as a rational, NaN or an infinity, is missing in it. *)
Definition exact (s : t) : list (nat * option Q) :=
  map (fun p => (fst p, value (snd p))) s.

End Series.

(* ------------------------------------------------------------------ *)

Record Row : Type := mkRow {
  label : nat;
  county : string;
  cell : string -> PrimFloat.float
}.

Module DataFrame.

(** [columns] names the numeric columns of the frame; [cell r c] is read
    only for a [c] among them. *)
Record t : Type := mk {
  columns : list string;
  rows : list Row
}.

Definition has_column (df : t) (col : string) : bool :=
  existsb (String.eqb col) (columns df).

(** The series of a column: the cell of each row under the row's label. *)
Definition column (df : t) (col : string) : Series.t :=
  map (fun r => (label r, cell r col)) (rows df).

(** [df[col]] *)
Definition getitem (df : t) (col : string) : outcome Series.t :=
  if has_column df col
  then Return (column df col)
  else Raise KeyError.

(** [df[mask]] for a boolean series on the index of [df]. *)
Definition getitem_mask (df : t) (mask : list (nat * bool)) : t :=
  mk (columns df)
     (map fst (filter (fun rb => snd (snd rb)) (combine (rows df) mask))).

(** [df.head(n)] and [df.tail(n)] *)
Definition head (n : nat) (df : t) : t :=
  mk (columns df) (firstn n (rows df)).

Definition tail (n : nat) (df : t) : t :=
  mk (columns df) (skipn (List.length (rows df) - n) (rows df)).

(** The rows of [df] that carry the index label [l]; a label the index
    does not have is a [KeyError]. *)
Definition loc_label (df : t) (l : nat) : outcome (list Row) :=
  match filter (fun r => Nat.eqb (label r) l) (rows df) with
  | [] => Raise KeyError
  | r :: rs => Return (r :: rs)
  end.

Fixpoint loc_labels (df : t) (labels : list nat) : outcome (list Row) :=
  match labels with
  | [] => Return []
  | l :: labels' =>
      match loc_label df l with
      | Raise e => Raise e
      | Return rs =>
          match loc_labels df labels' with
          | Raise e => Raise e
          | Return rs' => Return (rs ++ rs')%list
          end
      end
  end.

(** [df.loc[labels, ["county", col]]] *)
Definition loc (df : t) (labels : list nat) (col : string) : outcome t :=
  if has_column df col
  then match loc_labels df labels with
       | Raise e => Raise e
       | Return rs => Return (mk [col] rs)
       end
  else Raise KeyError.

Fixpoint relabel (i : nat) (rs : list Row) : list Row :=
  match rs with
  | [] => []
  | r :: rs' => mkRow i (county r) (cell r) :: relabel (S i) rs'
  end.

(** The frame [pd.DataFrame({"county": ..., col: ...})] of a list of
    (county, value) pairs, on the default index 0, 1, ... *)
Definition of_pairs (col : string) (data : list (string * PrimFloat.float)) : t :=
  mk [col]
     (relabel 0
        (map (fun cv => mkRow 0 (fst cv)
                          (fun c => if String.eqb c col then snd cv else nan))
             data)).

(** The (county, value) pairs of a frame, as a table shows them. *)
Definition pairs (df : t) (col : string) : list (string * PrimFloat.float) :=
  map (fun r => (county r, cell r col)) (rows df).

End DataFrame.

(* ------------------------------------------------------------------ *)

(** The calls to streamlit, with the numbers they show in binary64. *)
Inductive piece : Type :=
| Lit (s : string)
| Fmt (spec : string) (x : PrimFloat.float)
| Count (n : nat).

Definition text : Type := list piece.

Record table : Type := mkTable {
  header : string * string;
  body : list (string * PrimFloat.float)
}.

Inductive st_call : Type :=
| st_write (x : text)
| st_markdown (x : text)
| st_columns (n : nat)
| st_table (x : table).

Definition st (A : Type) : Type := (list st_call * outcome A)%type.

Definition bind {A B : Type} (m : st A) (k : A -> st B) : st B :=
  match m with
  | (out, Return a) => let (out', r) := k a in ((out ++ out')%list, r)
  | (out, Raise e) => (out, Raise e)
  end.

Definition call (c : st_call) : st unit := ([c], Return tt).

Definition lift {A : Type} (r : outcome A) : st A := ([], r).

Definition calls {A : Type} (m : st A) : list st_call := fst m.

Definition result {A : Type} (m : st A) : outcome A := snd m.

Declare Scope st64_scope.
Delimit Scope st64_scope with st64.
Notation "x <- m ;; k" := (bind m (fun x => k))
  (at level 61, m at next level, right associativity) : st64_scope.
Notation "m ;; k" := (bind m (fun _ => k))
  (at level 61, right associativity) : st64_scope.

(** [sep.join(lines)] *)
Fixpoint join (sep : text) (lines : list text) : text :=
  match lines with
  | [] => []
  | [l] => l
  | l :: ls => (l ++ sep ++ join sep ls)%list
  end.

(** The texts handed to [st.write], in the order of the calls. *)
Fixpoint written (cs : list st_call) : list text :=
  match cs with
  | [] => []
  | st_write x :: cs' => x :: written cs'
  | _ :: cs' => written cs'
  end.

(* ------------------------------------------------------------------ *)

(** Returns the cutoff value and the frame of the outlier counties. *)
Definition iqr_outliers (df : DataFrame.t) (col : string)
  : outcome (PrimFloat.float * DataFrame.t) :=
  match DataFrame.getitem df col with
  | Raise e => Raise e
  | Return column =>
      let s := Series.dropna column in
      if Series.empty s then Return (nan, DataFrame.head 0 df)
      else
        let q1 := Series.quantile s (1 # 4) in
        let q3 := Series.quantile s (3 # 4) in
        let cutoff := q3 + 1.5 * (q3 - q1) in
        let outliers := DataFrame.getitem_mask df (Series.gt column cutoff) in
        Return (cutoff, outliers)
  end.

(** [ratio], as lines 186-190 of [interpretation_univariate] set it. *)
Definition ratio_of (vmin vmax : PrimFloat.float) : option PrimFloat.float :=
  if 0 <? vmin then
    let r := vmax / vmin in
    if (1 <? r) && (r <=? 10) then Some r else None
  else None.

(** [bullets], as lines 237-245 build it. *)
Definition bullets (label : string) (median q1 q3 vmin vmax : PrimFloat.float)
    (ratio : option PrimFloat.float) : list text :=
  ([ [Lit "- A typical county is around **"; Fmt ",.1f" median; Lit " ";
      Lit label; Lit "**."];
     [Lit "- Half of counties fall between **"; Fmt ",.1f" q1;
      Lit "** and **"; Fmt ",.1f" q3; Lit "**."];
     [Lit "- The lowest observed value is **"; Fmt ",.1f" vmin;
      Lit "**, and the highest is **"; Fmt ",.1f" vmax; Lit "**."] ]
   ++ match ratio with
      | Some r =>
          [ [Lit "- The highest county is about **"; Fmt ",.1f" r;
             Lit " times** the lowest on this metric."] ]
      | None => []
      end)%list.

Definition renamed (frame : DataFrame.t) (var label : string) : table :=
  mkTable ("County", label) (DataFrame.pairs frame var).

Definition interpretation_univariate (var : string) (series : Series.t)
    (df : DataFrame.t) : st unit :=
  (let s := Series.dropna series in
   if Series.empty s then
     call (st_write [Lit "No data available for this variable."])
   else
     let label := get VAR_LABELS var var in
     let median := Series.median s in
     let q1 := Series.quantile s (1 # 4) in
     let q3 := Series.quantile s (3 # 4) in
     let vmin := Series.min s in
     let vmax := Series.max s in
     let ratio := ratio_of vmin vmax in
     sorted_df <- lift (DataFrame.loc df (Series.index (Series.sort_values s)) var) ;;
     let bottom3 := DataFrame.head 3 sorted_df in
     let top3 := DataFrame.tail 3 sorted_df in
     call (st_markdown [Lit "#### What this variable measures"]) ;;
     call (st_write [Lit (var_explanation var)]) ;;
     call (st_markdown [Lit "#### How counties compare on this metric"]) ;;
     call (st_write (join [Lit newline] (bullets label median q1 q3 vmin vmax ratio))) ;;
     call (st_markdown [Lit insight_callout]) ;;
     call (st_columns 2) ;;
     call (st_markdown [Lit "**Counties with the highest values (top 3)**"]) ;;
     call (st_table (renamed top3 var label)) ;;
     call (st_markdown [Lit "**Counties with the lowest values (bottom 3)**"]) ;;
     call (st_table (renamed bottom3 var label)) ;;
     call (st_markdown [Lit "#### Why this is relevant for heat and medical access"]) ;;
     call (st_write [Lit (why_text var)]) ;;
     call (st_markdown [Lit "#### Possible use in a machine-learning model"]) ;;
     call (st_write [Lit (model_text var)]))%st64.

(* ------------------------------------------------------------------ *)

(** The tables of the examples. *)
Definition example_table : DataFrame.t :=
  DataFrame.of_pairs "value"
    [("A", 10); ("B", 20); ("C", 30); ("D", 40); ("E", 1000)].

Definition single_row_table : DataFrame.t :=
  DataFrame.of_pairs "value" [("A", 7)].

Definition mixed_table : DataFrame.t :=
  DataFrame.of_pairs "value"
    [("A", 1); ("B", nan); ("C", 2); ("D", 3); ("E", 100); ("F", nan)].


(** 0.3 and 3.0: the quotient 3.0 / 0.3 rounds to 10. *)
Definition tenfold_table : DataFrame.t :=
  DataFrame.of_pairs "value" [("A", 0x1.3333333333333p-2); ("B", 3)].


End B64.

(* ================================================================== *)
(** * Facts about the embedding *)

(* ------------------------------------------------------------------ *)
(** ** Sorting *)

Section SortingFacts.

Context {A : Type}.
Variable leb : A -> A -> bool.

Hypothesis leb_total : forall x y, leb x y = true \/ leb y x = true.
Hypothesis leb_trans : forall x y z, leb x y = true -> leb y z = true -> leb x z = true.

Lemma insert_perm (x : A) (l : list A) : Permutation (x :: l) (insert leb x l).
Proof.
  induction l as [|y l IH]; simpl.
  - apply Permutation_refl.
  - destruct (leb x y).
    + apply Permutation_refl.
    + eapply perm_trans; [apply perm_swap|]. now apply perm_skip.
Qed.

Lemma sort_perm (l : list A) : Permutation l (sort leb l).
Proof.
  induction l as [|x l IH]; simpl.
  - constructor.
  - eapply perm_trans; [apply perm_skip, IH|]. apply insert_perm.
Qed.

Lemma sort_length (l : list A) : List.length (sort leb l) = List.length l.
Proof. symmetry. apply Permutation_length, sort_perm. Qed.

Lemma insert_sorted (x : A) (l : list A) :
  StronglySorted (le_of leb) l -> StronglySorted (le_of leb) (insert leb x l).
Proof.
  induction 1 as [|y l Hs IH Hy]; simpl.
  - repeat constructor.
  - destruct (leb x y) eqn:E.
    + apply SSorted_cons; [now apply SSorted_cons|].
      apply Forall_cons; [exact E|].
      rewrite Forall_forall in *. intros z Hz. eapply leb_trans; eauto.
      now apply Hy.
    + apply SSorted_cons; [exact IH|].
      assert (Hyx : leb y x = true) by (destruct (leb_total x y); congruence).
      rewrite Forall_forall in *. intros z Hz.
      apply (Permutation_in _ (Permutation_sym (insert_perm x l))) in Hz.
      destruct Hz as [<-|Hz]; auto.
Qed.

Lemma sort_sorted (l : list A) : StronglySorted (le_of leb) (sort leb l).
Proof.
  induction l; simpl; [constructor | now apply insert_sorted].
Qed.

End SortingFacts.

(** Sorting by a key commutes with reading the key. *)
Lemma insert_map {A B : Type} (f : A -> B) (leb : B -> B -> bool) (x : A) (l : list A) :
  map f (insert (fun a b => leb (f a) (f b)) x l) = insert leb (f x) (map f l).
Proof.
  induction l as [|y l IH]; simpl; [reflexivity|].
  destruct (leb (f x) (f y)); simpl; [reflexivity | now rewrite IH].
Qed.

Lemma sort_map {A B : Type} (f : A -> B) (leb : B -> B -> bool) (l : list A) :
  map f (sort (fun a b => leb (f a) (f b)) l) = sort leb (map f l).
Proof.
  induction l as [|x l IH]; simpl; [reflexivity|].
  now rewrite insert_map, IH.
Qed.

Lemma Qle_bool_total (x y : Q) : Qle_bool x y = true \/ Qle_bool y x = true.
Proof.
  rewrite !Qle_bool_iff. destruct (Qlt_le_dec x y); [left | right]; lra.
Qed.

Lemma Qle_bool_trans (x y z : Q) :
  Qle_bool x y = true -> Qle_bool y z = true -> Qle_bool x z = true.
Proof. rewrite !Qle_bool_iff. lra. Qed.

Lemma sort_Qle_sorted (l : list Q) : StronglySorted Qle (sort Qle_bool l).
Proof.
  assert (H := sort_sorted Qle_bool Qle_bool_total Qle_bool_trans l).
  induction H as [|x l' Hs IH Hx]; constructor; auto.
  rewrite Forall_forall in *. intros y Hy. apply Qle_bool_iff. now apply Hx.
Qed.

Lemma sorted_nth_le (a : list Q) (d : Q) :
  StronglySorted Qle a ->
  forall i j, (i <= j)%nat -> (j < List.length a)%nat -> nth i a d <= nth j a d.
Proof.
  induction 1 as [|x l Hs IH Hx]; simpl; intros i j Hij Hj; [lia|].
  destruct i as [|i], j as [|j]; try lia.
  - lra.
  - rewrite Forall_forall in Hx. apply Hx, nth_In. lia.
  - apply IH; lia.
Qed.

(* ------------------------------------------------------------------ *)
(** ** Quantiles *)

Lemma lerp_eq (a b g : Q) : Series.lerp a b g == a + (b - a) * g.
Proof. unfold Series.lerp. destruct (Qle_bool (1 # 2) g); ring. Qed.

Lemma lerp_bounds (a b g : Q) :
  a <= b -> 0 <= g -> g <= 1 -> a <= Series.lerp a b g /\ Series.lerp a b g <= b.
Proof. intros Hab H0 H1. rewrite lerp_eq. split; nra. Qed.

Lemma lerp_mono (a b g g' : Q) :
  a <= b -> g <= g' -> Series.lerp a b g <= Series.lerp a b g'.
Proof. intros Hab Hg. rewrite !lerp_eq. nra. Qed.

(** The virtual index of a quantile in [0, 1] and its floor stay within
    the ranks of the array. *)
Lemma virtual_index_bounds (N : Z) (q : Q) :
  (0 <= N)%Z -> 0 <= q -> q <= 1 ->
  let p := inject_Z N * q in
  (0 <= Qfloor p <= N)%Z /\ 0 <= p - inject_Z (Qfloor p) /\ p - inject_Z (Qfloor p) < 1.
Proof.
  intros HN H0 H1 p.
  assert (HNq : 0 <= inject_Z N) by (change 0 with (inject_Z 0); now rewrite <- Zle_Qle).
  assert (Hp0 : 0 <= p) by (unfold p; nra).
  assert (HpN : p <= inject_Z N) by (unfold p; nra).
  assert (Hlo := Qfloor_le p).
  assert (Hhi := Qlt_floor p).
  rewrite inject_Z_plus in Hhi. change (inject_Z 1) with 1 in Hhi.
  repeat split; try lra.
  - change 0%Z with (Qfloor 0). now apply Qfloor_resp_le.
  - rewrite <- (Qfloor_Z N). now apply Qfloor_resp_le.
Qed.

Lemma clip_in_range (n : nat) (i : Z) :
  (0 <= i <= Z.of_nat n - 1)%Z -> Series.clip n i = Z.to_nat i.
Proof. intros H. unfold Series.clip. f_equal. lia. Qed.

Lemma clip_lt (n : nat) (i : Z) : (0 < n)%nat -> (Series.clip n i < n)%nat.
Proof. intros H. unfold Series.clip. lia. Qed.

Lemma clip_mono (n : nat) (i j : Z) :
  (i <= j)%Z -> (Series.clip n i <= Series.clip n j)%nat.
Proof. intros H. unfold Series.clip. lia. Qed.

(** On a sorted array the linear quantile does not decrease with [q]. *)
Lemma quantile_sorted_mono (a : list Q) (q q' : Q) :
  StronglySorted Qle a -> a <> [] -> 0 <= q -> q <= q' -> q' <= 1 ->
  exists x y,
    Series.quantile_sorted a q = Some x /\
    Series.quantile_sorted a q' = Some y /\ x <= y.
Proof.
  intros Hs Hne H0 Hqq H1.
  destruct a as [|a0 l]; [congruence|].
  unfold Series.quantile_sorted.
  set (a := a0 :: l) in *.
  set (n := List.length a).
  assert (Hn : (0 < n)%nat) by (unfold n, a; simpl; lia).
  set (N := (Z.of_nat n - 1)%Z).
  assert (HN : (0 <= N)%Z) by (unfold N; lia).
  cbv zeta.
  set (p := inject_Z N * q). set (p' := inject_Z N * q').
  do 2 eexists. split; [reflexivity|]. split; [reflexivity|].
  destruct (virtual_index_bounds N q HN H0 ltac:(lra)) as [Hi [Hg0 Hg1]].
  destruct (virtual_index_bounds N q' HN ltac:(lra) H1) as [Hi' [Hg0' Hg1']].
  fold p in Hi, Hg0, Hg1. fold p' in Hi', Hg0', Hg1'.
  assert (Hpp : p <= p').
  { unfold p, p'.
    assert (0 <= inject_Z N) by (change 0 with (inject_Z 0); now rewrite <- Zle_Qle).
    nra. }
  assert (Hii : (Qfloor p <= Qfloor p')%Z) by now apply Qfloor_resp_le.
  set (i := Qfloor p) in *. set (i' := Qfloor p') in *.
  assert (Hnth : forall u v, (u <= v)%Z ->
            nth (Series.clip n u) a a0 <= nth (Series.clip n v) a a0).
  { intros u v Huv. apply sorted_nth_le; [exact Hs| |].
    - now apply clip_mono.
    - now apply clip_lt. }
  destruct (Z.eq_dec i i') as [E|NE].
  - rewrite <- E.
    apply lerp_mono; [apply Hnth; lia|]. lra.
  - assert (Hlt : (i + 1 <= i')%Z) by lia.
    destruct (lerp_bounds (nth (Series.clip n i) a a0)
                (nth (Series.clip n (i + 1)) a a0) (p - inject_Z i))
      as [_ Hup]; [apply Hnth; lia | lra | lra |].
    destruct (lerp_bounds (nth (Series.clip n i') a a0)
                (nth (Series.clip n (i' + 1)) a a0) (p' - inject_Z i'))
      as [Hlow _]; [apply Hnth; lia | lra | lra |].
    specialize (Hnth (i + 1)%Z i' Hlt). lra.
Qed.

(** The median is the linear quantile at one half. *)
Lemma median_sorted_quantile (a : list Q) :
  a <> [] ->
  exists m x,
    Series.median_sorted a = Some m /\
    Series.quantile_sorted a (1 # 2) = Some x /\ m == x.
Proof.
  intros Hne. destruct a as [|a0 l]; [congruence|].
  unfold Series.median_sorted, Series.quantile_sorted.
  set (a := a0 :: l) in *.
  set (n := List.length a).
  assert (Hn : (0 < n)%nat) by (unfold n, a; simpl; lia).
  cbv zeta.
  set (N := (Z.of_nat n - 1)%Z).
  assert (Hfloor : Qfloor (inject_Z N * (1 # 2)) = (N / 2)%Z).
  { unfold Qfloor, Qmult, inject_Z. simpl. now rewrite Z.mul_1_r. }
  rewrite Hfloor.
  destruct (Nat.even n) eqn:E.
  - apply Nat.even_spec in E. destruct E as [k Hk].
    assert (HN : N = (2 * (Z.of_nat k - 1) + 1)%Z) by (unfold N; lia).
    assert (Hdiv : (N / 2 = Z.of_nat k - 1)%Z)
      by (symmetry; apply (Z.div_unique N 2 _ 1); lia).
    rewrite Hdiv.
    assert (Hg : inject_Z N * (1 # 2) - inject_Z (Z.of_nat k - 1) == 1 # 2).
    { rewrite HN, inject_Z_plus, inject_Z_mult. change (inject_Z 2) with 2.
      change (inject_Z 1) with 1. lra. }
    rewrite !clip_in_range by lia.
    replace (Z.to_nat (Z.of_nat k - 1)) with (n / 2 - 1)%nat
      by (rewrite Hk, Nat.mul_comm, Nat.div_mul; lia).
    replace (Z.to_nat (Z.of_nat k - 1 + 1)) with (n / 2)%nat
      by (rewrite Hk, Nat.mul_comm, Nat.div_mul; lia).
    do 2 eexists. split; [reflexivity|]. split; [reflexivity|].
    rewrite lerp_eq, Hg. field.
  - assert (O : Nat.odd n = true) by (now rewrite <- Nat.negb_even, E).
    apply Nat.odd_spec in O. destruct O as [k Hk].
    assert (HN : N = (2 * Z.of_nat k)%Z) by (unfold N; lia).
    assert (Hdiv : (N / 2 = Z.of_nat k)%Z)
      by (symmetry; apply (Z.div_unique N 2 _ 0); lia).
    rewrite Hdiv.
    assert (Hg : inject_Z N * (1 # 2) - inject_Z (Z.of_nat k) == 0).
    { rewrite HN, inject_Z_mult. change (inject_Z 2) with 2. lra. }
    rewrite (clip_in_range n (Z.of_nat k)) by lia.
    replace (Z.to_nat (Z.of_nat k)) with (n / 2)%nat.
    2:{ rewrite Nat2Z.id, Hk.
        replace (2 * k + 1)%nat with (1 + k * 2)%nat by lia.
        rewrite Nat.div_add by lia. reflexivity. }
    do 2 eexists. split; [reflexivity|]. split; [reflexivity|].
    rewrite lerp_eq, Hg. ring.
Qed.

(* ------------------------------------------------------------------ *)
(** ** Series and frames *)

Lemma numbers_dropna (s : Series.t) :
  Series.numbers (Series.dropna s) = Series.numbers s.
Proof.
  induction s as [|[l [v|]] s IH]; simpl; [reflexivity | now rewrite IH | exact IH].
Qed.

Lemma empty_dropna_numbers (s : Series.t) :
  Series.empty (Series.dropna s) = true <-> Series.numbers s = [].
Proof.
  induction s as [|[l [v|]] s IH]; simpl; [tauto | split; discriminate | exact IH].
Qed.



Lemma sort_not_nil {A : Type} (leb : A -> A -> bool) (l : list A) :
  l <> [] -> sort leb l <> [].
Proof.
  intros Hne E. apply Hne. apply Permutation_nil.
  rewrite <- E. apply Permutation_sym, sort_perm.
Qed.

(** A series with a number in it has its quartiles and its median, and
    they are in order. *)
Lemma quartiles_of_numbers (s : Series.t) :
  Series.numbers s <> [] ->
  exists q1 m q3,
    Series.quantile s (1 # 4) = Some q1 /\
    Series.median s = Some m /\
    Series.quantile s (3 # 4) = Some q3 /\
    q1 <= m /\ m <= q3.
Proof.
  intros Hne. unfold Series.quantile, Series.median.
  set (a := sort Qle_bool (Series.numbers s)).
  assert (Hs : StronglySorted Qle a) by apply sort_Qle_sorted.
  assert (Ha : a <> []) by now apply sort_not_nil.
  destruct (quantile_sorted_mono a (1 # 4) (1 # 2) Hs Ha) as (q1 & x & E1 & Ex & H1);
    try lra.
  destruct (quantile_sorted_mono a (1 # 2) (3 # 4) Hs Ha) as (x' & q3 & Ex' & E3 & H3);
    try lra.
  destruct (median_sorted_quantile a Ha) as (m & x'' & Em & Ex'' & Hm).
  rewrite Ex in Ex', Ex''. injection Ex' as <-. injection Ex'' as <-.
  exists q1, m, q3. repeat split; auto; lra.
Qed.

Lemma mask_gt_rows (col : string) (c : float) (rs : list Row) :
  map fst (filter (fun rb : Row * (nat * bool) => snd (snd rb))
             (combine rs (Series.gt (map (fun r => (label r, cell r col)) rs) c)))
  = filter (fun r => fgt (cell r col) c) rs.
Proof.
  induction rs as [|r rs IH]; simpl; [reflexivity|].
  destruct (fgt (cell r col) c); simpl; now rewrite IH.
Qed.

Lemma getitem_mask_gt (df : DataFrame.t) (col : string) (c : float) :
  DataFrame.getitem_mask df (Series.gt (DataFrame.column df col) c)
  = DataFrame.mk (DataFrame.columns df)
      (filter (fun r => fgt (cell r col) c) (DataFrame.rows df)).
Proof. unfold DataFrame.getitem_mask, DataFrame.column. now rewrite mask_gt_rows. Qed.

Lemma fgt_Some (x : float) (c : Q) :
  fgt x (Some c) = true <-> exists v, x = Some v /\ c < v.
Proof.
  destruct x as [v|]; simpl.
  - unfold Qgtb. destruct (v ?= c) eqn:E.
    + split; [discriminate|]. intros (v' & [= <-] & H).
      apply Qeq_alt in E. lra.
    + split; [discriminate|]. intros (v' & [= <-] & H).
      apply Qlt_alt in E. lra.
    + split; [|reflexivity]. intros _. exists v. split; [reflexivity|].
      now apply Qgt_alt in E.
  - split; [discriminate|]. intros (v & H & _). discriminate.
Qed.

(** What [iqr_outliers] returns on a frame that has the column. *)
Lemma iqr_outliers_unfold (df : DataFrame.t) (col : string) :
  DataFrame.has_column df col = true ->
  iqr_outliers df col =
    let s := Series.dropna (DataFrame.column df col) in
    if Series.empty s then Return (nan, DataFrame.head 0 df)
    else
      let cutoff :=
        fadd (Series.quantile s (3 # 4))
             (fmul (Some (3 # 2))
                   (fsub (Series.quantile s (3 # 4)) (Series.quantile s (1 # 4)))) in
      Return (cutoff,
              DataFrame.mk (DataFrame.columns df)
                (filter (fun r => fgt (cell r col) cutoff) (DataFrame.rows df))).
Proof.
  intros H. unfold iqr_outliers, DataFrame.getitem. rewrite H. cbv zeta.
  destruct (Series.empty _); [reflexivity|]. now rewrite getitem_mask_gt.
Qed.



Lemma not_empty_numbers (s : Series.t) :
  Series.empty (Series.dropna s) = false -> Series.numbers s <> [].
Proof.
  intros H E. apply empty_dropna_numbers in E. congruence.
Qed.

(* ================================================================== *)
(** * The outlier rule *)



(** C10.  Every row that [iqr_outliers] returns is a row of the frame
    whose value in the column is not missing: the comparison with the
    cutoff is false for a missing value, whatever the cutoff. *)
Theorem iqr_outliers_rows_not_missing
    (df : DataFrame.t) (col : string) (cutoff : float) (outliers : DataFrame.t) :
  iqr_outliers df col = Return (cutoff, outliers) ->
  (forall c, fgt nan c = false) /\
  forall r, In r (DataFrame.rows outliers) ->
    In r (DataFrame.rows df) /\ isnan (cell r col) = false.
Proof.
  intros H. split; [reflexivity|].
  assert (Hcol : DataFrame.has_column df col = true).
  { unfold iqr_outliers, DataFrame.getitem in H.
    destruct (DataFrame.has_column df col); [reflexivity | discriminate]. }
  rewrite (iqr_outliers_unfold df col Hcol) in H. cbv zeta in H.
  destruct (Series.empty _).
  - injection H as <- <-. simpl. contradiction.
  - injection H as <- <-. simpl. intros r Hr.
    apply filter_In in Hr. destruct Hr as [Hr Hgt]. split; [exact Hr|].
    destruct (cell r col); [reflexivity | discriminate].
Qed.

Lemma iqr_outliers_rows_not_missing_witness :
  exists cutoff outliers,
    iqr_outliers mixed_table "value" = Return (cutoff, outliers) /\
    DataFrame.pairs outliers "value" = [("E", Some 100)] /\
    Forall (fun r => In r (DataFrame.rows mixed_table) /\ isnan (cell r "value") = false)
           (DataFrame.rows outliers).
Proof.
  destruct (iqr_outliers mixed_table "value") as [[cutoff outliers]|e] eqn:E.
  - exists cutoff, outliers. split; [reflexivity|]. split.
    + vm_compute in E. injection E as <- <-. reflexivity.
    + apply Forall_forall.
      exact (proj2 (iqr_outliers_rows_not_missing mixed_table "value" cutoff outliers E)).
  - vm_compute in E. discriminate.
Defined.

(* ================================================================== *)
(** * The calls of a computation *)

Lemma calls_bind {A B : Type} (m : st A) (k : A -> st B) :
  calls (bind m k) =
  (calls m ++ match result m with
              | Return a => calls (k a)
              | Raise _ => []
              end)%list.
Proof.
  destruct m as [out [a|e]]; simpl.
  - now destruct (k a).
  - now rewrite app_nil_r.
Qed.

Lemma result_bind {A B : Type} (m : st A) (k : A -> st B) :
  result (bind m k) =
  match result m with
  | Return a => result (k a)
  | Raise e => Raise e
  end.
Proof.
  destruct m as [out [a|e]]; simpl; [now destruct (k a) | reflexivity].
Qed.

Lemma in_calls_bind {A B : Type} (m : st A) (k : A -> st B) (c : st_call) :
  In c (calls (bind m k)) ->
  In c (calls m) \/ exists a, result m = Return a /\ In c (calls (k a)).
Proof.
  rewrite calls_bind, in_app_iff. intros [H|H]; [now left|].
  destruct (result m) as [a|e]; [|contradiction].
  right. now exists a.
Qed.


(* ------------------------------------------------------------------ *)
(** ** What interpretation_univariate writes *)



(** The calls of [interpretation_univariate] when the series has a value
    and the sorted rows were found. *)
Lemma interpretation_univariate_calls
    (var : string) (series : Series.t) (df sorted_df : DataFrame.t) :
  Series.empty (Series.dropna series) = false ->
  DataFrame.loc df (Series.index (Series.sort_values (Series.dropna series))) var
    = Return sorted_df ->
  let s := Series.dropna series in
  let label := get VAR_LABELS var var in
  interpretation_univariate var series df =
  ([ st_markdown [Lit "#### What this variable measures"];
     st_write [Lit (var_explanation var)];
     st_markdown [Lit "#### How counties compare on this metric"];
     st_write (join [Lit newline]
                 (bullets label (Series.median s) (Series.quantile s (1 # 4))
                    (Series.quantile s (3 # 4)) (Series.min s) (Series.max s)
                    (ratio_of (Series.min s) (Series.max s))));
     st_markdown [Lit insight_callout];
     st_columns 2;
     st_markdown [Lit "**Counties with the highest values (top 3)**"];
     st_table (renamed (DataFrame.tail 3 sorted_df) var label);
     st_markdown [Lit "**Counties with the lowest values (bottom 3)**"];
     st_table (renamed (DataFrame.head 3 sorted_df) var label);
     st_markdown [Lit "#### Why this is relevant for heat and medical access"];
     st_write [Lit (why_text var)];
     st_markdown [Lit "#### Possible use in a machine-learning model"];
     st_write [Lit (model_text var)] ],
   Return tt).
Proof.
  intros Hne Hloc. unfold interpretation_univariate.
  rewrite Hne. cbv zeta. rewrite Hloc. reflexivity.
Qed.

Lemma interpretation_univariate_raises
    (var : string) (series : Series.t) (df : DataFrame.t) (e : exception) :
  Series.empty (Series.dropna series) = false ->
  DataFrame.loc df (Series.index (Series.sort_values (Series.dropna series))) var
    = Raise e ->
  interpretation_univariate var series df = ([], Raise e).
Proof.
  intros Hne Hloc. unfold interpretation_univariate.
  rewrite Hne. cbv zeta. rewrite Hloc. reflexivity.
Qed.

Lemma interpretation_univariate_no_data
    (var : string) (series : Series.t) (df : DataFrame.t) :
  Series.empty (Series.dropna series) = true ->
  interpretation_univariate var series df =
  ([st_write [Lit "No data available for this variable."]], Return tt).
Proof.
  intros He. unfold interpretation_univariate. now rewrite He.
Qed.

(* ------------------------------------------------------------------ *)
(** ** Rows by label, and the sorted rows *)

Lemma filter_none {A : Type} (f : A -> bool) (l : list A) :
  (forall x, In x l -> f x = false) -> filter f l = [].
Proof.
  induction l as [|x l IH]; simpl; intros H; [reflexivity|].
  rewrite (H x (or_introl eq_refl)). apply IH. intros y Hy. apply H. now right.
Qed.

Lemma filter_label_unique (rs : list Row) (r : Row) :
  NoDup (map label rs) -> In r rs ->
  filter (fun r' => Nat.eqb (label r') (label r)) rs = [r].
Proof.
  induction rs as [|r0 rs IH]; simpl; intros Hnd Hin; [contradiction|].
  inversion Hnd as [|x xs Hnotin Hnd']; subst.
  destruct Hin as [->|Hin].
  - rewrite Nat.eqb_refl. f_equal. apply filter_none.
    intros r' Hr'. apply Nat.eqb_neq. intros E. apply Hnotin.
    rewrite <- E. now apply in_map.
  - assert (Hneq : Nat.eqb (label r0) (label r) = false).
    { apply Nat.eqb_neq. intros E. apply Hnotin. rewrite E. now apply in_map. }
    rewrite Hneq. now apply IH.
Qed.

Lemma loc_labels_rows (df : DataFrame.t) (rs : list Row) :
  NoDup (map label (DataFrame.rows df)) ->
  (forall r, In r rs -> In r (DataFrame.rows df)) ->
  DataFrame.loc_labels df (map label rs) = Return rs.
Proof.
  intros Hnd. induction rs as [|r rs IH]; simpl; intros Hin; [reflexivity|].
  unfold DataFrame.loc_label.
  rewrite (filter_label_unique _ r Hnd (Hin r (or_introl eq_refl))).
  rewrite IH; [reflexivity|]. intros r' Hr'. apply Hin. now right.
Qed.

Lemma dropna_column (df : DataFrame.t) (var : string) :
  Series.dropna (DataFrame.column df var)
  = map (fun r => (label r, cell r var))
        (filter (fun r => notna (cell r var)) (DataFrame.rows df)).
Proof.
  unfold Series.dropna, DataFrame.column.
  induction (DataFrame.rows df) as [|r rs IH]; simpl; [reflexivity|].
  destruct (notna (cell r var)); simpl; now rewrite IH.
Qed.

Lemma value_leb_total (p q : nat * float) :
  Series.value_leb p q = true \/ Series.value_leb q p = true.
Proof.
  unfold Series.value_leb. destruct (snd p), (snd q); auto using Qle_bool_total.
Qed.

Lemma value_leb_trans (p q r : nat * float) :
  Series.value_leb p q = true -> Series.value_leb q r = true ->
  Series.value_leb p r = true.
Proof.
  unfold Series.value_leb. destruct (snd p), (snd q), (snd r);
    try discriminate; try apply Qle_bool_trans; auto.
Qed.

(** With distinct index labels, [df.loc] on the index of the sorted column
    finds the rows with a value, sorted. *)
Lemma loc_sorted_rows (df : DataFrame.t) (var : string) :
  DataFrame.has_column df var = true ->
  NoDup (map label (DataFrame.rows df)) ->
  DataFrame.loc df
    (Series.index (Series.sort_values (Series.dropna (DataFrame.column df var)))) var
  = Return (DataFrame.mk [var]
              (sort (row_leb var)
                    (filter (fun r => notna (cell r var)) (DataFrame.rows df)))).
Proof.
  intros Hcol Hnd. unfold DataFrame.loc. rewrite Hcol.
  rewrite dropna_column. unfold Series.sort_values, Series.index.
  rewrite <- (sort_map (fun r => (label r, cell r var)) Series.value_leb).
  rewrite map_map. simpl.
  fold (row_leb var).
  rewrite loc_labels_rows; [reflexivity | exact Hnd |].
  intros r Hr.
  apply (Permutation_in _ (Permutation_sym (sort_perm (row_leb var) _))) in Hr.
  now apply filter_In in Hr.
Qed.

Lemma loc_labels_total (df : DataFrame.t) (labels : list nat) :
  (forall l, In l labels -> In l (map label (DataFrame.rows df))) ->
  exists rs, DataFrame.loc_labels df labels = Return rs.
Proof.
  induction labels as [|l labels IH]; simpl; intros Hin; [now exists []|].
  destruct IH as [rs' E]; [intros l' Hl'; apply Hin; now right|].
  assert (Hl : In l (map label (DataFrame.rows df))) by (apply Hin; now left).
  apply in_map_iff in Hl. destruct Hl as (r & Hlr & Hr).
  unfold DataFrame.loc_label.
  destruct (filter (fun r' => Nat.eqb (label r') l) (DataFrame.rows df))
    as [|r0 rs0] eqn:Ef.
  - assert (Hf : In r (filter (fun r' => Nat.eqb (label r') l) (DataFrame.rows df))).
    { apply filter_In. split; [exact Hr|]. now apply Nat.eqb_eq. }
    rewrite Ef in Hf. contradiction.
  - rewrite E. eauto.
Qed.

(** [df.loc] on the index of a column of [df] finds a row for every
    label, whether or not the labels are distinct. *)
Lemma loc_column_total (df : DataFrame.t) (var : string) :
  DataFrame.has_column df var = true ->
  exists sorted_df,
    DataFrame.loc df
      (Series.index (Series.sort_values (Series.dropna (DataFrame.column df var)))) var
    = Return sorted_df.
Proof.
  intros Hcol. unfold DataFrame.loc. rewrite Hcol.
  destruct (loc_labels_total df
              (Series.index (Series.sort_values (Series.dropna (DataFrame.column df var)))))
    as [rs E].
  - intros l Hl. unfold Series.index, Series.sort_values in Hl.
    apply in_map_iff in Hl. destruct Hl as (p & <- & Hp).
    apply (Permutation_in _ (Permutation_sym (sort_perm _ _))) in Hp.
    apply filter_In in Hp. destruct Hp as [Hp _].
    unfold DataFrame.column in Hp. apply in_map_iff in Hp.
    destruct Hp as (r & <- & Hr). simpl. now apply in_map.
  - rewrite E. eauto.
Qed.

Lemma sorted_rows_ascending (var : string) (rs : list Row) :
  (forall r, In r rs -> notna (cell r var) = true) ->
  StronglySorted
    (fun r1 r2 => exists a b, cell r1 var = Some a /\ cell r2 var = Some b /\ a <= b)
    (sort (row_leb var) rs).
Proof.
  intros Hna.
  assert (Hs : StronglySorted (le_of (row_leb var)) (sort (row_leb var) rs)).
  { apply sort_sorted.
    - intros x y. apply value_leb_total.
    - intros x y z. apply value_leb_trans. }
  assert (Hin : forall r, In r (sort (row_leb var) rs) -> notna (cell r var) = true).
  { intros r Hr. apply Hna.
    now apply (Permutation_in _ (Permutation_sym (sort_perm (row_leb var) rs))). }
  induction Hs as [|r l Hs IH Hr]; constructor.
  - apply IH. intros r' Hr'. apply Hin. now right.
  - rewrite Forall_forall in *. intros r' Hr'.
    specialize (Hr r' Hr'). unfold le_of, row_leb, Series.value_leb in Hr. simpl in Hr.
    assert (H1 := Hin r (or_introl eq_refl)).
    assert (H2 := Hin r' (or_intror Hr')).
    destruct (cell r var) as [a|], (cell r' var) as [b|]; try discriminate.
    exists a, b. repeat split. now apply Qle_bool_iff.
Qed.

Lemma firstn_skipn_overlap {A : Type} (l : list A) :
  l <> [] -> (List.length l < 6)%nat ->
  exists x, In x (firstn 3 l) /\ In x (skipn (List.length l - 3) l).
Proof.
  intros Hne Hlen.
  destruct l as [|a [|b [|c [|d [|e [|f l]]]]]]; simpl in *;
    try congruence; try lia.
  - exists a. auto.
  - exists a. auto.
  - exists a. auto.
  - exists b. auto.
  - exists c. auto.
Qed.

Lemma firstn_skipn_apart {A : Type} (l : list A) :
  (6 <= List.length l)%nat ->
  exists middle, l = (firstn 3 l ++ middle ++ skipn (List.length l - 3) l)%list.
Proof.
  intros Hlen. exists (firstn (List.length l - 6) (skipn 3 l)).
  rewrite <- (firstn_skipn 3 l) at 1. f_equal.
  rewrite <- (firstn_skipn (List.length l - 6) (skipn 3 l)) at 1. f_equal.
  rewrite skipn_skipn. f_equal. lia.
Qed.

(* ================================================================== *)
(** * Top 3 and bottom 3 *)

(** C7.  Called as the page calls it, on the column of a frame whose index
    labels are distinct, [interpretation_univariate] sorts the rows that
    have a value in ascending order of the value and shows two tables: the
    last three sorted rows as the top 3 and the first three as the bottom
    3, or all the rows when there are fewer than three.  With fewer than
    six rows the two tables share a row; with six or more they are apart. *)
Theorem top3_bottom3 (var : string) (df : DataFrame.t) :
  DataFrame.has_column df var = true ->
  NoDup (map label (DataFrame.rows df)) ->
  Series.empty (Series.dropna (DataFrame.column df var)) = false ->
  exists sorted_rows : list Row,
    Permutation sorted_rows
      (filter (fun r => notna (cell r var)) (DataFrame.rows df)) /\
    StronglySorted
      (fun r1 r2 => exists a b, cell r1 var = Some a /\ cell r2 var = Some b /\ a <= b)
      sorted_rows /\
    result (interpretation_univariate var (DataFrame.column df var) df) = Return tt /\
    tables (calls (interpretation_univariate var (DataFrame.column df var) df))
    = [ mkTable ("County", get VAR_LABELS var var)
          (map (fun r => (county r, cell r var))
               (skipn (List.length sorted_rows - 3) sorted_rows));
        mkTable ("County", get VAR_LABELS var var)
          (map (fun r => (county r, cell r var)) (firstn 3 sorted_rows)) ] /\
    List.length (firstn 3 sorted_rows) = Nat.min 3 (List.length sorted_rows) /\
    List.length (skipn (List.length sorted_rows - 3) sorted_rows)
    = Nat.min 3 (List.length sorted_rows) /\
    ((List.length sorted_rows < 6)%nat ->
     exists r, In r (firstn 3 sorted_rows) /\
               In r (skipn (List.length sorted_rows - 3) sorted_rows)) /\
    ((6 <= List.length sorted_rows)%nat ->
     exists middle,
       sorted_rows
       = (firstn 3 sorted_rows ++ middle
          ++ skipn (List.length sorted_rows - 3) sorted_rows)%list).
Proof.
  intros Hcol Hnd Hne.
  set (present := filter (fun r => notna (cell r var)) (DataFrame.rows df)).
  exists (sort (row_leb var) present).
  assert (Hcalls := interpretation_univariate_calls var (DataFrame.column df var) df _
                      Hne (loc_sorted_rows df var Hcol Hnd)).
  cbv zeta in Hcalls. fold present in Hcalls.
  split; [apply Permutation_sym, sort_perm|].
  split.
  { apply sorted_rows_ascending. intros r Hr. now apply filter_In in Hr. }
  rewrite Hcalls. split; [reflexivity|]. split; [reflexivity|].
  split; [rewrite length_firstn; lia|].
  split; [rewrite length_skipn; lia|].
  split.
  - apply firstn_skipn_overlap. apply sort_not_nil.
    intros E. rewrite dropna_column in Hne. fold present in Hne.
    rewrite E in Hne. discriminate.
  - apply firstn_skipn_apart.
Qed.

Lemma top3_bottom3_witness :
  exists sorted_rows : list Row,
    Permutation sorted_rows
      (filter (fun r => notna (cell r "value")) (DataFrame.rows mixed_table)) /\
    tables (calls (interpretation_univariate "value"
                     (DataFrame.column mixed_table "value") mixed_table))
    = [ mkTable ("County", "value")
          (map (fun r => (county r, cell r "value"))
               (skipn (List.length sorted_rows - 3) sorted_rows));
        mkTable ("County", "value")
          (map (fun r => (county r, cell r "value")) (firstn 3 sorted_rows)) ] /\
    exists r, In r (firstn 3 sorted_rows) /\
              In r (skipn (List.length sorted_rows - 3) sorted_rows).
Proof.
  destruct (top3_bottom3 "value" mixed_table) as (rs & Hp & _ & _ & Ht & _ & _ & Ho & _).
  - reflexivity.
  - repeat constructor; simpl; intuition discriminate.
  - reflexivity.
  - exists rs. split; [exact Hp|]. split; [exact Ht|]. apply Ho.
    rewrite (Permutation_length Hp). simpl. lia.
Defined.

(* ================================================================== *)
(** * The variable catalog *)

(** C6, as the code has it.  The names with a label are the eleven
    variables of [EDA_VARS] followed by is_medical_desert, each once, so
    each of the twelve has exactly one label.  Each of the eleven
    variables of [EDA_VARS] is listed under exactly one of the four
    themes; is_medical_desert is listed under none. *)
Theorem catalog_themes_and_labels :
  keys VAR_LABELS = (EDA_VARS ++ ["is_medical_desert"])%list /\
  NoDup (keys VAR_LABELS) /\
  Forall (fun name => exists label, lookup VAR_LABELS name = Some label)
         (keys VAR_LABELS) /\
  keys THEME_VARS
  = ["Capacity and access"; "Population and daytime presence";
     "Social barriers"; "Heat and climate"] /\
  Forall (fun name => exists theme,
              themes_of name = [theme] /\ In theme (keys THEME_VARS))
         EDA_VARS /\
  themes_of "is_medical_desert" = [].
Proof.
  split; [reflexivity|]. split.
  { repeat (constructor; [simpl; intuition discriminate|]). constructor. }
  split.
  { repeat (constructor; [eexists; reflexivity|]). constructor. }
  split; [reflexivity|]. split; [|reflexivity].
  repeat (constructor; [eexists; split; [reflexivity | simpl; tauto]|]).
  constructor.
Qed.

(** The claim C6 as stated fails at is_medical_desert: it is one of the
    twelve names, and no theme lists it. *)
Lemma is_medical_desert_has_no_theme :
  In "is_medical_desert" (keys VAR_LABELS) /\
  ~ (exists theme vars,
        In (theme, vars) THEME_VARS /\ In "is_medical_desert" vars).
Proof.
  split; [simpl; tauto|].
  intros (theme & vars & Hin & Hvar). simpl in Hin.
  repeat (destruct Hin as [Hin|Hin];
          [injection Hin as <- <-; simpl in Hvar; intuition discriminate|]).
  contradiction.
Qed.

(* ================================================================== *)
(** * Unknown variables *)

Lemma eqb_not_key (var k : string) :
  ~ In var (keys VAR_LABELS) -> In k (keys VAR_LABELS) -> String.eqb var k = false.
Proof.
  intros Hn Hk. apply String.eqb_neq. intros ->. now apply Hn.
Qed.

Ltac key_mismatch H :=
  repeat match goal with
         | |- context [String.eqb ?v ?k] =>
             rewrite (eqb_not_key v k H) by (simpl; tauto)
         end.

(** C8.  For a name that has no label in [VAR_LABELS], the label shown is
    the name itself and the three narrative texts are the generic ones of
    the last branch of each chain; no narrative text is empty, for any
    name.  Called as the page calls it, on the column of that name of a
    frame that has it, [interpretation_univariate] returns without
    raising: it writes those three texts when the column has a value, and
    the sentence that no data is available when it has none.  For the
    name foo it does so. *)
Theorem unknown_variable_fallback :
  (forall var : string,
      ~ In var (keys VAR_LABELS) ->
      get VAR_LABELS var var = var /\
      var_explanation var
      = "County-level summary for the metric shown on the chart." /\
      why_text var
      = "This metric captures one aspect of county-level risk or capacity that interacts with heat conditions." /\
      model_text var
      = "- This variable can be included as a county-level feature after appropriate scaling or standardisation.")
  /\
  (forall var : string,
      var_explanation var <> "" /\ why_text var <> "" /\ model_text var <> "")
  /\
  (forall (var : string) (df : DataFrame.t),
      ~ In var (keys VAR_LABELS) ->
      DataFrame.has_column df var = true ->
      let run := interpretation_univariate var (DataFrame.column df var) df in
      result run = Return tt /\
      (Series.empty (Series.dropna (DataFrame.column df var)) = true ->
       calls run = [st_write [Lit "No data available for this variable."]]) /\
      (Series.empty (Series.dropna (DataFrame.column df var)) = false ->
       map header (tables (calls run)) = [("County", var); ("County", var)] /\
       exists lines,
         written (calls run)
         = [ [Lit "County-level summary for the metric shown on the chart."];
             lines;
             [Lit "This metric captures one aspect of county-level risk or capacity that interacts with heat conditions."];
             [Lit "- This variable can be included as a county-level feature after appropriate scaling or standardisation."] ]))
  /\
  (~ In "foo" (keys VAR_LABELS) /\
   result (interpretation_univariate "foo" (DataFrame.column foo_table "foo") foo_table)
   = Return tt).
Proof.
  assert (Hgen : forall var : string,
             ~ In var (keys VAR_LABELS) ->
             get VAR_LABELS var var = var /\
             var_explanation var
             = "County-level summary for the metric shown on the chart." /\
             why_text var
             = "This metric captures one aspect of county-level risk or capacity that interacts with heat conditions." /\
             model_text var
             = "- This variable can be included as a county-level feature after appropriate scaling or standardisation.").
  { intros var H.
    unfold get, var_explanation, why_text, model_text, mem, VAR_LABELS; simpl.
    key_mismatch H. simpl. repeat split; reflexivity. }
  split; [exact Hgen|]. split; [|split].
  - intros var. unfold var_explanation, why_text, model_text.
    repeat split;
      repeat match goal with
             | |- context [if ?b then _ else _] => destruct b
             end; vm_compute; discriminate.
  - intros var df Hn Hcol run.
    destruct (Hgen var Hn) as (Hl & He & Hw & Hm).
    destruct (Series.empty (Series.dropna (DataFrame.column df var))) eqn:Hne.
    + unfold run.
      rewrite (interpretation_univariate_no_data var _ df Hne).
      split; [reflexivity|]. split; [reflexivity | discriminate].
    + destruct (loc_column_total df var Hcol) as [sorted_df Hloc].
      assert (Hcalls := interpretation_univariate_calls var (DataFrame.column df var)
                          df sorted_df Hne Hloc).
      cbv zeta in Hcalls. unfold run. rewrite Hcalls.
      split; [reflexivity|]. split; [discriminate|]. intros _. split.
      * simpl. now rewrite Hl.
      * eexists. simpl. rewrite He, Hw, Hm. reflexivity.
  - split; [simpl; intuition discriminate | reflexivity].
Qed.

Lemma unknown_variable_fallback_witness :
  result (interpretation_univariate "foo" (DataFrame.column foo_table "foo") foo_table)
  = Return tt /\
  map header
    (tables (calls (interpretation_univariate "foo"
                      (DataFrame.column foo_table "foo") foo_table)))
  = [("County", "foo"); ("County", "foo")].
Proof.
  destruct (proj1 (proj2 (proj2 unknown_variable_fallback)) "foo" foo_table)
    as (Hr & _ & Ht).
  - simpl. intuition discriminate.
  - reflexivity.
  - split; [exact Hr | exact (proj1 (Ht eq_refl))].
Defined.

(* ================================================================== *)
(** * The page *)

(** The three shapes of a run of [interpretation_univariate]. *)
Lemma interpretation_univariate_cases
    (var : string) (series : Series.t) (df : DataFrame.t) :
  (Series.empty (Series.dropna series) = true /\
   interpretation_univariate var series df
   = ([st_write [Lit "No data available for this variable."]], Return tt))
  \/
  (Series.empty (Series.dropna series) = false /\
   exists e,
     DataFrame.loc df (Series.index (Series.sort_values (Series.dropna series))) var
     = Raise e /\
     interpretation_univariate var series df = ([], Raise e))
  \/
  (Series.empty (Series.dropna series) = false /\
   exists sorted_df,
     DataFrame.loc df (Series.index (Series.sort_values (Series.dropna series))) var
     = Return sorted_df).
Proof.
  destruct (Series.empty (Series.dropna series)) eqn:He.
  - left. split; [reflexivity|]. now apply interpretation_univariate_no_data.
  - right.
    destruct (DataFrame.loc df
                (Series.index (Series.sort_values (Series.dropna series))) var)
      as [sorted_df|e] eqn:Hloc.
    + right. split; [reflexivity|]. now exists sorted_df.
    + left. split; [reflexivity|]. exists e. split; [reflexivity|].
      now apply interpretation_univariate_raises.
Qed.

Lemma interpretation_univariate_no_chart
    (var : string) (series : Series.t) (df : DataFrame.t) (c : chart) :
  ~ In (st_altair_chart c) (calls (interpretation_univariate var series df)).
Proof.
  destruct (interpretation_univariate_cases var series df)
    as [[_ E] | [[_ (e & _ & E)] | [He (sorted_df & Hloc)]]].
  - rewrite E. simpl. intuition discriminate.
  - rewrite E. simpl. tauto.
  - rewrite (interpretation_univariate_calls var series df sorted_df He Hloc).
    simpl. intuition discriminate.
Qed.





Ltac step H :=
  apply in_calls_bind in H;
  destruct H as [H | (? & ? & H)];
  [ first [ now apply interpretation_univariate_no_chart in H
          | simpl in H; intuition discriminate ]
  | cbv beta zeta in H ].

Lemma combine_map {A B C : Type} (f : A -> B) (g : A -> C) (l : list A) :
  combine (map f l) (map g l) = map (fun x => (f x, g x)) l.
Proof. induction l; simpl; [reflexivity | now rewrite IHl]. Qed.

Lemma map_relabel {B : Type} (f : string -> (string -> float) -> B) (i : nat) (rs : list Row) :
  map (fun r => f (county r) (cell r)) (DataFrame.relabel i rs)
  = map (fun r => f (county r) (cell r)) rs.
Proof.
  revert i. induction rs as [|r rs IH]; intros i; simpl; [reflexivity | now rewrite IH].
Qed.

(** The one chart of the page: a bar for each row with a value in the
    selected column, highest first, grouped by [bucket] on the quartiles
    of the column. *)
Lemma render_chart
    (radio selectbox : list string -> string) (df : DataFrame.t) (c : chart) :
  In (st_altair_chart c) (calls (render_exploratory_eda radio selectbox (Some df))) ->
  exists var,
    DataFrame.has_column df var = true /\
    Series.empty (Series.dropna (DataFrame.column df var)) = false /\
    bars c
    = map (fun r => (county r, cell r var,
                     bucket (Series.quantile (Series.dropna (DataFrame.column df var)) (1 # 4))
                            (Series.quantile (Series.dropna (DataFrame.column df var)) (3 # 4))
                            (cell r var)))
          (sort (DataFrame.desc_leb var)
                (filter (fun r => notna (cell r var)) (DataFrame.rows df))).
Proof.
  intros H. unfold render_exploratory_eda in H.
  repeat step H.
  match type of H with
  | context [match ?x with [] => _ | _ :: _ => _ end] => destruct x as [|kv kvs]
  end; [simpl in H; intuition discriminate|].
  repeat step H.
  match goal with
  | E : result (lift (DataFrame.getitem df ?v)) = Return ?s |- _ =>
      set (var := v) in *; rename s into column; rename E into Hcolumn
  end.
  simpl in Hcolumn. unfold DataFrame.getitem in Hcolumn.
  destruct (DataFrame.has_column df var) eqn:Hcol; [|discriminate].
  injection Hcolumn as <-.
  destruct (Series.empty (Series.dropna (DataFrame.column df var))) eqn:Hne;
    [simpl in H; intuition discriminate|].
  apply in_calls_bind in H.
  destruct H as [H | (selected & Hsel & H)]; [simpl in H; contradiction|].
  apply in_calls_bind in H.
  destruct H as [H | (sorted & Hsort & H)]; [simpl in H; contradiction|].
  cbv beta zeta in H.
  simpl in Hsel. unfold DataFrame.getitem_cols in Hsel. rewrite Hcol in Hsel.
  injection Hsel as <-.
  simpl in Hsort. unfold DataFrame.sort_values_desc, DataFrame.has_column in Hsort.
  simpl in Hsort. rewrite String.eqb_refl in Hsort. simpl in Hsort.
  injection Hsort as <-.
  apply in_calls_bind in H. destruct H as [H | (? & ? & H)].
  - simpl in H. destruct H as [H|[]]. injection H as <-.
    exists var. split; [exact Hcol|]. split; [exact Hne|].
    simpl bars. unfold DataFrame.pairs, DataFrame.reset_index. simpl DataFrame.rows.
    rewrite combine_map.
    rewrite (map_relabel
               (fun cty cl =>
                  (cty, cl var,
                   bucket (Series.quantile (Series.dropna (DataFrame.column df var)) (1 # 4))
                          (Series.quantile (Series.dropna (DataFrame.column df var)) (3 # 4))
                          (cl var)))).
    do 2 f_equal. apply filter_ext. intros r. apply andb_true_r.
  - repeat step H.
    match type of H with
    | context [if ?b then _ else _] => destruct b
    end; [simpl in H; intuition discriminate|].
    repeat step H. simpl in H. intuition discriminate.
Qed.

(* ================================================================== *)
(** * Buckets *)

Lemma bucket_rule (q1 q3 x : Q) :
  (q3 <= x -> bucket (Some q1) (Some q3) (Some x) = "Top 25%") /\
  (x < q3 -> x <= q1 -> bucket (Some q1) (Some q3) (Some x) = "Bottom 25%") /\
  (x < q3 -> q1 < x -> bucket (Some q1) (Some q3) (Some x) = "Middle").
Proof.
  unfold bucket, fge, fle.
  destruct (Qle_bool q3 x) eqn:E3; destruct (Qle_bool x q1) eqn:E1;
    try apply Qle_bool_iff in E3; try apply Qle_bool_iff in E1;
    try (apply not_true_iff_false in E3; rewrite Qle_bool_iff in E3);
    try (apply not_true_iff_false in E1; rewrite Qle_bool_iff in E1);
    repeat split; intros; try reflexivity; lra.
Qed.



(* ================================================================== *)
(** * Columns with no value *)




(* ================================================================== *)
(** * The page returns *)

Lemma mem_In (x : string) (xs : list string) : mem x xs = true -> In x xs.
Proof.
  unfold mem. intros H. apply existsb_exists in H.
  destruct H as (y & Hy & E). apply String.eqb_eq in E. now subst.
Qed.

Lemma lookup_key {V : Type} (d : dict V) (k : string) :
  In k (keys d) -> exists v, lookup d k = Some v /\ In (k, v) d.
Proof.
  induction d as [|[k' v'] d IH]; simpl; [contradiction|].
  intros Hk. destruct (String.eqb k k') eqn:E.
  - apply String.eqb_eq in E. subst. eauto.
  - destruct Hk as [->|Hk]; [now rewrite String.eqb_refl in E|].
    destruct (IH Hk) as (v & Hv & Hin). eauto.
Qed.

(** The metrics offered under a theme are columns of the loaded table,
    and no theme is offered without a metric. *)
Lemma theme_var_map_columns
    (has : string -> bool) (eda : list string) (themes : dict (list string))
    (theme : string) (vars : list string) :
  In (theme, vars)
     (filter (fun kv : string * list string =>
                match snd kv with [] => false | _ :: _ => true end)
        (map (fun kv : string * list string =>
                (fst kv, filter (fun v => mem v (filter has eda)) (snd kv)))
             themes)) ->
  vars <> [] /\ forall v, In v vars -> has v = true.
Proof.
  intros H. apply filter_In in H. destruct H as [H Hne].
  split; [intros ->; discriminate|].
  apply in_map_iff in H. destruct H as (kv & E & _). injection E as _ <-.
  intros v Hv. apply filter_In in Hv. destruct Hv as [_ Hv].
  apply mem_In in Hv. now apply filter_In in Hv.
Qed.

Lemma interpretation_univariate_returns (var : string) (df : DataFrame.t) :
  DataFrame.has_column df var = true ->
  result (interpretation_univariate var (DataFrame.column df var) df) = Return tt.
Proof.
  intros Hcol.
  destruct (interpretation_univariate_cases var (DataFrame.column df var) df)
    as [[_ E] | [[_ (e & Hloc & _)] | [He (sorted_df & Hloc)]]].
  - now rewrite E.
  - destruct (loc_column_total df var Hcol) as [sorted_df E]. congruence.
  - now rewrite (interpretation_univariate_calls var _ df sorted_df He Hloc).
Qed.

Ltac run_call := rewrite result_bind; cbn [result call lift snd].

(** X1.  Whatever table was loaded, the page returns without raising,
    provided each widget returns one of the options it was given. *)
Theorem render_exploratory_eda_returns
    (radio selectbox : list string -> string) (loaded : option DataFrame.t) :
  (forall options, options <> [] -> In (radio options) options) ->
  (forall options, options <> [] -> In (selectbox options) options) ->
  result (render_exploratory_eda radio selectbox loaded) = Return tt.
Proof.
  intros Hradio Hselect. unfold render_exploratory_eda.
  do 2 run_call.
  destruct loaded as [df|]; [|reflexivity].
  do 3 run_call. cbv zeta.
  match goal with
  | |- context [match ?x with [] => _ | _ :: _ => _ end] => set (tvm := x)
  end.
  assert (Htvm : forall theme vars, In (theme, vars) tvm ->
            vars <> [] /\ forall v, In v vars -> DataFrame.has_column df v = true)
    by (intros theme vars;
        apply (theme_var_map_columns (DataFrame.has_column df) EDA_VARS THEME_VARS)).
  destruct tvm as [|kv kvs] eqn:Etvm; [reflexivity|].
  run_call.
  destruct (lookup_key (kv :: kvs) (radio (keys (kv :: kvs))))
    as (theme_vars & Hlook & Hin).
  { apply Hradio. discriminate. }
  destruct (Htvm _ _ Hin) as [Hne Hcols].
  assert (Hcol : DataFrame.has_column df (selectbox theme_vars) = true)
    by (apply Hcols, Hselect, Hne).
  run_call. unfold getitem at 1. rewrite Hlook.
  run_call. unfold DataFrame.getitem at 1. rewrite Hcol.
  do 2 run_call.
  destruct (Series.empty _); [reflexivity|].
  run_call. unfold DataFrame.getitem_cols at 1. rewrite Hcol.
  run_call. unfold DataFrame.sort_values_desc at 1.
  assert (Hself : forall rs,
            DataFrame.has_column (DataFrame.dropna (DataFrame.mk [selectbox theme_vars] rs))
              (selectbox theme_vars) = true).
  { intros rs. unfold DataFrame.has_column. simpl. now rewrite String.eqb_refl. }
  rewrite Hself.
  do 3 run_call.
  rewrite result_bind, (interpretation_univariate_returns _ df Hcol).
  do 2 run_call. rewrite (iqr_outliers_unfold df _ Hcol). cbv zeta.
  destruct (Series.empty _).
  - reflexivity.
  - cbn [fst snd].
    match goal with
    | |- context [if ?b then _ else _] => destruct b
    end; [reflexivity|].
    run_call. run_call. unfold DataFrame.getitem_cols at 1.
    unfold DataFrame.has_column at 1. cbn [DataFrame.columns].
    fold (DataFrame.has_column df (selectbox theme_vars)). rewrite Hcol.
    run_call. unfold DataFrame.sort_values_desc at 1.
    unfold DataFrame.has_column at 1. simpl. now rewrite String.eqb_refl.
Qed.

Lemma render_exploratory_eda_returns_witness :
  result (render_exploratory_eda first_option first_option (Some page_table)) = Return tt.
Proof.
  apply render_exploratory_eda_returns;
    intros [|o os] H; solve [congruence | now left].
Defined.

(* ================================================================== *)
(** * A quantile and its neighbours *)

(** A linear quantile of a sorted array lies between two of its elements. *)
Lemma quantile_sorted_between (a : list Q) (q : Q) :
  StronglySorted Qle a -> a <> [] -> 0 <= q -> q <= 1 ->
  exists v x y,
    Series.quantile_sorted a q = Some v /\ In x a /\ In y a /\ x <= v /\ v <= y.
Proof.
  intros Hs Hne H0 H1.
  destruct a as [|a0 l]; [congruence|].
  unfold Series.quantile_sorted.
  set (a := a0 :: l) in *.
  set (n := List.length a).
  assert (Hn : (0 < n)%nat) by (unfold n, a; simpl; lia).
  set (N := (Z.of_nat n - 1)%Z).
  assert (HN : (0 <= N)%Z) by (unfold N; lia).
  cbv zeta.
  destruct (virtual_index_bounds N q HN H0 H1) as [Hi [Hg0 Hg1]].
  set (p := inject_Z N * q) in *. set (i := Qfloor p) in *.
  eexists. exists (nth (Series.clip n i) a a0), (nth (Series.clip n (i + 1)) a a0).
  split; [reflexivity|].
  split; [apply nth_In; now apply clip_lt|].
  split; [apply nth_In; now apply clip_lt|].
  apply lerp_bounds; try lra.
  apply sorted_nth_le; [exact Hs | apply clip_mono; lia | now apply clip_lt].
Qed.

(* ================================================================== *)
(** * Strings *)

Local Open Scope list_scope.

Lemma startswith_iff (s sep : Str.t) :
  Str.startswith s sep = true <-> exists r, s = (sep ++ r)%list.
Proof.
  revert s. induction sep as [|c sep IH]; intros s; simpl.
  - split; [intros _; now exists s | intros _; reflexivity].
  - destruct s as [|d s]; simpl.
    + split; [discriminate | intros [r H]; discriminate].
    + rewrite andb_true_iff, N.eqb_eq, IH. split.
      * intros [-> [r ->]]. now exists r.
      * intros [r [= -> ->]]. split; [reflexivity | now exists r].
Qed.

Lemma skipn_app_length {A : Type} (l r : list A) :
  skipn (List.length l) (l ++ r) = r.
Proof. induction l; simpl; [reflexivity | assumption]. Qed.

Lemma find_eq (sep s : Str.t) :
  Str.find sep s =
  if Str.startswith s sep then Some ([], skipn (List.length sep) s)
  else match s with
       | [] => None
       | c :: s' =>
           match Str.find sep s' with
           | Some (before, after) => Some (c :: before, after)
           | None => None
           end
       end.
Proof. destruct s; reflexivity. Qed.

Lemma find_here (sep r : Str.t) : Str.find sep (sep ++ r) = Some ([], r).
Proof.
  rewrite find_eq.
  assert (H : Str.startswith (sep ++ r) sep = true) by (apply startswith_iff; eauto).
  now rewrite H, skipn_app_length.
Qed.

(** What [find] returns splits the text around the separator. *)
Lemma find_Some (sep s before after : Str.t) :
  Str.find sep s = Some (before, after) -> s = (before ++ sep ++ after)%list.
Proof.
  revert before after. induction s as [|c s IH]; intros before after; rewrite find_eq.
  - destruct (Str.startswith [] sep) eqn:E; [|discriminate].
    apply startswith_iff in E. destruct E as [r E]. intros [= <- <-].
    destruct sep; [reflexivity | discriminate].
  - destruct (Str.startswith (c :: s) sep) eqn:E.
    + apply startswith_iff in E. destruct E as [r E]. intros [= <- <-].
      rewrite E. simpl. now rewrite skipn_app_length.
    + destruct (Str.find sep s) as [[b a]|]; [|discriminate].
      intros [= <- <-]. simpl. f_equal. now apply IH.
Qed.

Lemma find_shorter (sep s before after : Str.t) :
  sep <> [] -> Str.find sep s = Some (before, after) ->
  (List.length after < List.length s)%nat.
Proof.
  intros Hne H. apply find_Some in H. subst s.
  rewrite !length_app. destruct sep; [congruence | simpl; lia].
Qed.

Lemma find_nil (sep : Str.t) : sep <> [] -> Str.find sep [] = None.
Proof. destruct sep; [congruence | reflexivity]. Qed.

Lemma startswith_app_long (s u sep : Str.t) :
  (List.length sep <= List.length s)%nat ->
  Str.startswith (s ++ u) sep = Str.startswith s sep.
Proof.
  revert s. induction sep as [|c sep IH]; intros s H; [reflexivity|].
  destruct s as [|d s]; simpl in *; [lia|].
  rewrite IH by lia. reflexivity.
Qed.

Lemma startswith_app_true (s u sep : Str.t) :
  Str.startswith s sep = true -> Str.startswith (s ++ u) sep = true.
Proof.
  intros H. apply startswith_iff in H. destruct H as [r ->].
  apply startswith_iff. exists (r ++ u)%list. now rewrite app_assoc.
Qed.

(** An occurrence found in a text is still the first one when the text is
    continued. *)
Lemma find_app_Some (sep s u before after : Str.t) :
  Str.find sep s = Some (before, after) ->
  Str.find sep (s ++ u) = Some (before, (after ++ u)%list).
Proof.
  revert before after. induction s as [|c s IH]; intros before after.
  - rewrite find_eq. destruct (Str.startswith [] sep) eqn:E; [|discriminate].
    intros [= <- <-]. apply startswith_iff in E. destruct E as [r E].
    destruct sep; [|discriminate]. destruct r; [|discriminate].
    simpl. rewrite find_eq. reflexivity.
  - rewrite find_eq. destruct (Str.startswith (c :: s) sep) eqn:E.
    + intros [= <- <-]. rewrite find_eq.
      rewrite (startswith_app_true _ u _ E).
      apply startswith_iff in E. destruct E as [r E]. rewrite E.
      rewrite <- app_assoc. now rewrite !skipn_app_length.
    + destruct (Str.find sep s) as [[b a]|] eqn:F; [|discriminate].
      intros [= <- <-].
      rewrite find_eq.
      assert (Hlen : (List.length sep <= List.length (c :: s))%nat).
      { apply find_Some in F. subst s. simpl. rewrite !length_app. lia. }
      change ((c :: s) ++ u)%list with ((c :: s) ++ u)%list.
      rewrite (startswith_app_long (c :: s) u sep Hlen), E.
      simpl. now rewrite (IH b a eq_refl).
Qed.

Lemma contains_app_l (sep s u : Str.t) :
  Str.contains sep s = true -> Str.contains sep (s ++ u) = true.
Proof.
  unfold Str.contains. destruct (Str.find sep s) as [[b a]|] eqn:F; [|discriminate].
  intros _. now rewrite (find_app_Some sep s u b a F).
Qed.

Lemma contains_app_r (sep u s : Str.t) :
  Str.contains sep s = true -> Str.contains sep (u ++ s) = true.
Proof.
  intros H. induction u as [|c u IH]; [exact H|].
  unfold Str.contains in *. simpl app. rewrite find_eq.
  destruct (Str.startswith (c :: u ++ s) sep); [reflexivity|].
  destruct (Str.find sep (u ++ s)) as [[b a]|]; [reflexivity | discriminate].
Qed.

(** A text that does not hold the separator holds it in none of its
    parts. *)
Lemma contains_part (sep l m r : Str.t) :
  Str.contains sep (l ++ m ++ r) = false -> Str.contains sep m = false.
Proof.
  intros H. destruct (Str.contains sep m) eqn:E; [|reflexivity].
  rewrite (contains_app_r sep l _ (contains_app_l sep m r E)) in H. discriminate.
Qed.

(** The text before the first occurrence does not hold the separator. *)
Lemma find_before_clean (sep s before after : Str.t) :
  sep <> [] -> Str.find sep s = Some (before, after) ->
  Str.contains sep before = false.
Proof.
  intros Hne. revert before after.
  induction s as [|c s IH]; intros before after; rewrite find_eq.
  - destruct (Str.startswith [] sep) eqn:E; [|discriminate].
    apply startswith_iff in E. destruct E as [r E].
    destruct sep; [congruence | discriminate].
  - destruct (Str.startswith (c :: s) sep) eqn:E.
    + intros [= <- <-]. unfold Str.contains. now rewrite find_nil.
    + destruct (Str.find sep s) as [[b a]|] eqn:F; [|discriminate].
      intros [= <- <-]. specialize (IH b a eq_refl).
      unfold Str.contains in *. rewrite find_eq.
      assert (Hlen : (List.length sep <= List.length (c :: s))%nat).
      { apply find_Some in F. subst s. simpl. rewrite !length_app. lia. }
      destruct (Str.startswith (c :: b) sep) eqn:E'.
      * apply find_Some in F. subst s.
        change (c :: b ++ sep ++ a)%list with ((c :: b) ++ sep ++ a)%list in E.
        rewrite (startswith_app_true _ _ _ E') in E. discriminate.
      * destruct (Str.find sep b) as [[b' a']|]; [discriminate | reflexivity].
Qed.

Lemma split_upto_S (n : nat) (sep s : Str.t) :
  Str.split_upto (S n) sep s =
  match Str.find sep s with
  | Some (before, after) => before :: Str.split_upto n sep after
  | None => [s]
  end.
Proof. reflexivity. Qed.

(** The bound on the occurrences does not matter once it reaches the
    length of the text. *)
Lemma split_upto_enough (sep : Str.t) (n m : nat) (s : Str.t) :
  sep <> [] -> (List.length s <= n)%nat -> (List.length s <= m)%nat ->
  Str.split_upto n sep s = Str.split_upto m sep s.
Proof.
  intros Hne. revert m s. induction n as [|n IH]; intros m s Hn Hm.
  - destruct s; [|simpl in Hn; lia].
    destruct m; [reflexivity|]. now rewrite split_upto_S, find_nil.
  - destruct m as [|m].
    + destruct s; [|simpl in Hm; lia]. now rewrite split_upto_S, find_nil.
    + rewrite !split_upto_S. destruct (Str.find sep s) as [[b a]|] eqn:F; [|reflexivity].
      assert (Hlt := find_shorter sep s b a Hne F).
      f_equal. apply IH; lia.
Qed.

Lemma split_eq (sep s : Str.t) :
  sep <> [] ->
  Str.split sep s =
  Value match Str.find sep s with
        | Some (before, after) =>
            before :: Str.split_upto (List.length after) sep after
        | None => [s]
        end.
Proof.
  intros Hne. unfold Str.split. destruct sep as [|c sep']; [congruence|].
  f_equal. destruct s as [|d s].
  - now rewrite find_nil.
  - change (List.length (d :: s)) with (S (List.length s)). rewrite split_upto_S.
    destruct (Str.find (c :: sep') (d :: s)) as [[b a]|] eqn:F; [|reflexivity].
    f_equal. assert (Hlt := find_shorter _ _ b a Hne F).
    apply split_upto_enough; simpl in *; [exact Hne | lia | lia].
Qed.

(** The first piece of a split. *)
Lemma split_upto_head (sep s : Str.t) :
  sep <> [] ->
  exists rest,
    Str.split_upto (List.length s) sep s
    = match Str.find sep s with
      | Some (before, _) => before
      | None => s
      end :: rest.
Proof.
  intros Hne. destruct s as [|d s].
  - rewrite find_nil by exact Hne. now exists [].
  - change (List.length (d :: s)) with (S (List.length s)). rewrite split_upto_S.
    destruct (Str.find sep (d :: s)) as [[b a]|]; eauto.
Qed.

Lemma split_upto_not_nil (n : nat) (sep s : Str.t) : Str.split_upto n sep s <> [].
Proof.
  destruct n; [discriminate|]. rewrite split_upto_S.
  destruct (Str.find sep s) as [[b a]|]; discriminate.
Qed.

Lemma item_nth (ps : list Str.t) (k : nat) (p : Str.t) :
  nth_error ps k = Some p -> Str.item ps (Z.of_nat k) = Value p.
Proof.
  intros H. unfold Str.item. cbv zeta.
  assert (Hk : (k < List.length ps)%nat) by (apply nth_error_Some; congruence).
  destruct (Z.of_nat k <? 0)%Z eqn:E; [apply Z.ltb_lt in E; lia|].
  assert (C : ((0 <=? Z.of_nat k) && (Z.of_nat k <? Z.of_nat (List.length ps)))%Z = true)
    by (apply andb_true_iff; split; [apply Z.leb_le | apply Z.ltb_lt]; lia).
  now rewrite C, Nat2Z.id, H.
Qed.

Lemma item_first (p : Str.t) (ps : list Str.t) : Str.item (p :: ps) 0 = Value p.
Proof. exact (item_nth (p :: ps) 0 p eq_refl). Qed.

Lemma item_second (p q : Str.t) (ps : list Str.t) :
  Str.item (p :: q :: ps) 1 = Value q.
Proof. exact (item_nth (p :: q :: ps) 1 q eq_refl). Qed.

Lemma nth_error_last {A : Type} (l : list A) (d : A) :
  l <> [] -> nth_error l (List.length l - 1) = Some (last l d).
Proof.
  induction l as [|x l IH]; [congruence|]. intros _.
  destruct l as [|y l]; [reflexivity|].
  specialize (IH ltac:(discriminate)). simpl in *.
  now rewrite Nat.sub_0_r in IH.
Qed.

Lemma item_last (ps : list Str.t) :
  ps <> [] -> Str.item ps (-1) = Value (last ps []).
Proof.
  intros Hne. unfold Str.item. change (-1 <? 0)%Z with true. cbv beta iota zeta.
  set (n := List.length ps).
  assert (Hn : (0 < n)%nat) by (unfold n; destruct ps; [congruence | simpl; lia]).
  assert (C : ((0 <=? Z.of_nat n + -1) && (Z.of_nat n + -1 <? Z.of_nat n))%Z = true)
    by (apply andb_true_iff; split; [apply Z.leb_le | apply Z.ltb_lt]; lia).
  rewrite C.
  replace (Z.to_nat (Z.of_nat n + -1)) with (n - 1)%nat by lia.
  unfold n. now rewrite (nth_error_last ps [] Hne).
Qed.

(** An occurrence that starts before a character the separator lacks
    ends before it. *)
Lemma startswith_before_char (u v p : Str.t) (c : N) :
  ~ In c p -> Str.startswith (u ++ c :: v) p = true -> Str.startswith u p = true.
Proof.
  revert u. induction p as [|y p IH]; intros u Hc H; [reflexivity|].
  destruct u as [|z u]; simpl in *.
  - apply andb_true_iff in H. destruct H as [H _]. apply N.eqb_eq in H.
    exfalso. apply Hc. now left.
  - apply andb_true_iff in H. destruct H as [H1 H2]. rewrite H1. simpl.
    apply IH; [|exact H2]. intros Hin. apply Hc. now right.
Qed.

(** When the separator starts with a character it has nowhere else, an
    occurrence cannot run from a clean text into that character. *)
Lemma find_app_clean (c : N) (sep' a t : Str.t) :
  ~ In c sep' -> Str.contains (c :: sep') a = false ->
  Str.find (c :: sep') (a ++ c :: t) =
  match Str.find (c :: sep') (c :: t) with
  | Some (b, r) => Some (a ++ b, r)
  | None => None
  end.
Proof.
  intros Hc. induction a as [|x a IH]; intros Ha.
  - simpl app. destruct (Str.find (c :: sep') (c :: t)) as [[b r]|]; reflexivity.
  - unfold Str.contains in Ha. rewrite find_eq in Ha.
    destruct (Str.startswith (x :: a) (c :: sep')) eqn:E; [discriminate|].
    destruct (Str.find (c :: sep') a) as [[b r]|] eqn:F; [discriminate|].
    simpl app. rewrite find_eq.
    destruct (Str.startswith (x :: a ++ c :: t) (c :: sep')) eqn:E'.
    + exfalso. simpl in E, E'. apply andb_true_iff in E'. destruct E' as [E1 E2].
      rewrite E1 in E. simpl in E.
      rewrite (startswith_before_char a t sep' c Hc E2) in E. discriminate.
    + rewrite IH by (unfold Str.contains; now rewrite F).
      destruct (Str.find (c :: sep') (c :: t)) as [[b r]|]; reflexivity.
Qed.

(** No occurrence starts in a text that lacks the first character of the
    separator. *)
Lemma find_app_skip (c : N) (sep' a t : Str.t) :
  ~ In c a ->
  Str.find (c :: sep') (a ++ t) =
  match Str.find (c :: sep') t with
  | Some (b, r) => Some (a ++ b, r)
  | None => None
  end.
Proof.
  induction a as [|x a IH]; intros Ha.
  - simpl app. destruct (Str.find (c :: sep') t) as [[b r]|]; reflexivity.
  - simpl app. rewrite find_eq.
    assert (Hx : N.eqb c x = false).
    { apply N.eqb_neq. intros ->. apply Ha. now left. }
    simpl Str.startswith. rewrite Hx. simpl.
    rewrite IH by (intros Hin; apply Ha; now right).
    destruct (Str.find (c :: sep') t) as [[b r]|]; reflexivity.
Qed.

Lemma lstrip_suffix (s : Str.t) : exists w, s = w ++ Str.lstrip s.
Proof.
  induction s as [|c s [w IH]]; simpl; [now exists []|].
  destruct (Str.isspace c).
  - exists (c :: w). simpl. now rewrite <- IH.
  - now exists [].
Qed.

Lemma rstrip_prefix (s : Str.t) : exists w, s = Str.rstrip s ++ w.
Proof.
  unfold Str.rstrip. destruct (lstrip_suffix (rev s)) as [w H].
  exists (rev w). rewrite <- rev_app_distr, <- H. now rewrite rev_involutive.
Qed.

(** [strip] only removes characters at the two ends. *)
Lemma strip_part (s : Str.t) : exists l r, s = l ++ Str.strip s ++ r.
Proof.
  unfold Str.strip. destruct (lstrip_suffix s) as [l Hl].
  destruct (rstrip_prefix (Str.lstrip s)) as [r Hr].
  exists l, r. now rewrite <- Hr.
Qed.

Lemma lstrip_head (s : Str.t) (c : N) (s' : Str.t) :
  Str.lstrip s = c :: s' -> Str.isspace c = false.
Proof.
  induction s as [|d s IH]; simpl; [discriminate|].
  destruct (Str.isspace d) eqn:E; [exact IH|]. now intros [= <- <-].
Qed.

Lemma strip_trimmed (s : Str.t) : Str.trimmed (Str.strip s).
Proof.
  unfold Str.trimmed, Str.strip. split.
  - intros c s' H. destruct (rstrip_prefix (Str.lstrip s)) as [w Hw].
    rewrite H in Hw. simpl in Hw. now apply (lstrip_head s c (s' ++ w)).
  - intros c s' H. unfold Str.rstrip in H.
    apply (f_equal (@rev N)) in H. rewrite rev_involutive, rev_app_distr in H.
    simpl in H. now apply (lstrip_head _ _ _ H).
Qed.

Lemma before_prefix (sep s : Str.t) : exists w, s = Str.before sep s ++ w.
Proof.
  unfold Str.before. destruct (Str.find sep s) as [[b a]|] eqn:F.
  - exists (sep ++ a). now apply find_Some.
  - exists []. now rewrite app_nil_r.
Qed.

Lemma before_clean (sep s : Str.t) :
  sep <> [] -> Str.contains sep (Str.before sep s) = false.
Proof.
  intros Hne. unfold Str.before. destruct (Str.find sep s) as [[b a]|] eqn:F.
  - now apply (find_before_clean sep s b a).
  - unfold Str.contains. now rewrite F.
Qed.

Lemma split_upto_last_suffix (n : nat) (sep s : Str.t) :
  exists w, s = w ++ last (Str.split_upto n sep s) [].
Proof.
  revert s. induction n as [|n IH]; intros s; [now exists []|].
  rewrite split_upto_S. destruct (Str.find sep s) as [[b a]|] eqn:F; [|now exists []].
  destruct (IH a) as [w Hw].
  assert (Hlast : last (b :: Str.split_upto n sep a) []
                  = last (Str.split_upto n sep a) []).
  { destruct (Str.split_upto n sep a) eqn:E; [|reflexivity].
    now apply split_upto_not_nil in E. }
  rewrite Hlast. exists (b ++ sep ++ w).
  rewrite (find_Some _ _ _ _ F). rewrite Hw at 1. now rewrite <- !app_assoc.
Qed.

Lemma split_upto_last_clean (n : nat) (sep s : Str.t) :
  sep <> [] -> (List.length s <= n)%nat ->
  Str.contains sep (last (Str.split_upto n sep s) []) = false.
Proof.
  intros Hne. revert s. induction n as [|n IH]; intros s Hn.
  - destruct s; [|simpl in Hn; lia]. unfold Str.contains. simpl last.
    now rewrite find_nil.
  - rewrite split_upto_S. destruct (Str.find sep s) as [[b a]|] eqn:F.
    + assert (Hlt := find_shorter sep s b a Hne F).
      assert (Hlast : last (b :: Str.split_upto n sep a) []
                      = last (Str.split_upto n sep a) []).
      { destruct (Str.split_upto n sep a) eqn:E; [|reflexivity].
        now apply split_upto_not_nil in E. }
      rewrite Hlast. apply IH. lia.
    + simpl last. unfold Str.contains. now rewrite F.
Qed.

(* ------------------------------------------------------------------ *)
(** ** The tags *)

(** Each tag starts with the character [<], which it has nowhere else. *)
Lemma final_answer_open_cons :
  final_answer_open = 60%N :: Str.of_string "final_answer>" /\
  ~ In 60%N (Str.of_string "final_answer>").
Proof. split; [reflexivity | simpl; intuition discriminate]. Qed.

Lemma final_answer_close_cons :
  final_answer_close = 60%N :: Str.of_string "/final_answer>" /\
  ~ In 60%N (Str.of_string "/final_answer>").
Proof. split; [reflexivity | simpl; intuition discriminate]. Qed.

Lemma think_close_cons :
  think_close = 60%N :: Str.of_string "/think>" /\
  ~ In 60%N (Str.of_string "/think>").
Proof. split; [reflexivity | simpl; intuition discriminate]. Qed.

Lemma final_answer_open_not_nil : final_answer_open <> [].
Proof. rewrite (proj1 final_answer_open_cons). discriminate. Qed.

Lemma final_answer_close_not_nil : final_answer_close <> [].
Proof. rewrite (proj1 final_answer_close_cons). discriminate. Qed.

Lemma think_close_not_nil : think_close <> [].
Proof. rewrite (proj1 think_close_cons). discriminate. Qed.

(* ------------------------------------------------------------------ *)
(** ** The branches of extract_final_answer *)

Lemma extract_tagged (text pre rest : Str.t) :
  Str.find final_answer_open text = Some (pre, rest) ->
  extract_final_answer text
  = Value (Str.strip (Str.before final_answer_close
                        (Str.before final_answer_open rest))).
Proof.
  intros F. unfold extract_final_answer, Str.contains. rewrite F.
  rewrite (split_eq _ text final_answer_open_not_nil), F. cbn [and_then].
  destruct (split_upto_head final_answer_open rest final_answer_open_not_nil)
    as [ps Hps].
  rewrite Hps, item_second. cbn [and_then].
  fold (Str.before final_answer_open rest).
  set (p1 := Str.before final_answer_open rest).
  rewrite (split_eq _ _ final_answer_close_not_nil). cbn [and_then].
  destruct (Str.find final_answer_close p1) as [[b a]|] eqn:F2;
    rewrite item_first; cbn [and_then]; unfold Str.before; now rewrite F2.
Qed.

Lemma extract_think (text : Str.t) :
  Str.contains final_answer_open text = false ->
  Str.contains think_open text = true ->
  extract_final_answer text
  = Value (Str.strip (last (Str.split_upto (List.length text) think_close text) [])).
Proof.
  intros H1 H2. unfold extract_final_answer. rewrite H1, H2.
  unfold Str.split. rewrite (proj1 think_close_cons). cbn [and_then].
  rewrite item_last by apply split_upto_not_nil. reflexivity.
Qed.

Lemma extract_plain (text : Str.t) :
  Str.contains final_answer_open text = false ->
  Str.contains think_open text = false ->
  extract_final_answer text = Value text.
Proof. intros H1 H2. unfold extract_final_answer. now rewrite H1, H2. Qed.

Lemma contains_find (sep s : Str.t) :
  Str.contains sep s = true -> exists b a, Str.find sep s = Some (b, a).
Proof.
  unfold Str.contains. destruct (Str.find sep s) as [[b a]|]; [eauto | discriminate].
Qed.

(** X4.  [extract_final_answer] returns for every text: the piece it
    indexes is there whenever the tag it tested for is. *)
Theorem extract_final_answer_returns (text : Str.t) :
  exists answer, extract_final_answer text = Value answer.
Proof.
  destruct (Str.contains final_answer_open text) eqn:H1.
  - destruct (contains_find _ _ H1) as (pre & rest & F).
    rewrite (extract_tagged text pre rest F). eauto.
  - destruct (Str.contains think_open text) eqn:H2.
    + rewrite (extract_think text H1 H2). eauto.
    + rewrite (extract_plain text H1 H2). eauto.
Qed.

(** X5.  What [extract_final_answer] returns is a part of the text, in
    one piece: the function only cuts.  A text with neither tag is
    returned as it is, its whitespace included. *)
Theorem extract_final_answer_cuts (text answer : Str.t) :
  extract_final_answer text = Value answer ->
  (exists l r, text = l ++ answer ++ r) /\
  (Str.contains final_answer_open text = false ->
   Str.contains think_open text = false -> answer = text).
Proof.
  intros H. split.
  - destruct (Str.contains final_answer_open text) eqn:H1.
    + destruct (contains_find _ _ H1) as (pre & rest & F).
      rewrite (extract_tagged text pre rest F) in H. injection H as <-.
      destruct (before_prefix final_answer_open rest) as [w1 E1].
      destruct (before_prefix final_answer_close (Str.before final_answer_open rest))
        as [w2 E2].
      destruct (strip_part (Str.before final_answer_close
                              (Str.before final_answer_open rest))) as (l & r & E3).
      exists (pre ++ final_answer_open ++ l), (r ++ w2 ++ w1).
      rewrite (find_Some _ _ _ _ F). rewrite E1 at 1. rewrite E2 at 1.
      rewrite E3 at 1. now rewrite <- !app_assoc.
    + destruct (Str.contains think_open text) eqn:H2.
      * rewrite (extract_think text H1 H2) in H. injection H as <-.
        destruct (split_upto_last_suffix (List.length text) think_close text) as [w E1].
        destruct (strip_part (last (Str.split_upto (List.length text) think_close text) []))
          as (l & r & E2).
        exists (w ++ l), r. rewrite E1 at 1. rewrite E2 at 1.
        now rewrite <- !app_assoc.
      * rewrite (extract_plain text H1 H2) in H. injection H as <-.
        exists [], []. simpl. now rewrite app_nil_r.
  - intros H1 H2. rewrite (extract_plain text H1 H2) in H. now injection H.
Qed.

Lemma extract_final_answer_cuts_witness :
  exists l r,
    Str.of_string "<think>plan</think> so <final_answer> 42 </final_answer>."
    = l ++ Str.of_string "42" ++ r.
Proof.
  exact (proj1 (extract_final_answer_cuts
                  (Str.of_string "<think>plan</think> so <final_answer> 42 </final_answer>.")
                  (Str.of_string "42") eq_refl)).
Defined.

(** X6.  When the text holds the tag [<final_answer>], the answer
    returned holds neither [<final_answer>] nor [</final_answer>] and has
    no whitespace at either end. *)
Theorem extract_final_answer_clean (text answer : Str.t) :
  Str.contains final_answer_open text = true ->
  extract_final_answer text = Value answer ->
  Str.contains final_answer_open answer = false /\
  Str.contains final_answer_close answer = false /\
  Str.trimmed answer.
Proof.
  intros H1 H. destruct (contains_find _ _ H1) as (pre & rest & F).
  rewrite (extract_tagged text pre rest F) in H. injection H as <-.
  set (p1 := Str.before final_answer_open rest).
  set (p2 := Str.before final_answer_close p1).
  assert (C1 : Str.contains final_answer_open p1 = false)
    by apply before_clean, final_answer_open_not_nil.
  assert (C2 : Str.contains final_answer_close p2 = false)
    by apply before_clean, final_answer_close_not_nil.
  destruct (before_prefix final_answer_close p1) as [w E]. fold p2 in E.
  destruct (strip_part p2) as (l & r & E3).
  split; [|split].
  - apply (contains_part final_answer_open l _ (r ++ w)).
    rewrite app_assoc, app_assoc, <- (app_assoc l), <- E3, <- E. exact C1.
  - apply (contains_part final_answer_close l _ r). now rewrite <- E3.
  - apply strip_trimmed.
Qed.

Lemma extract_final_answer_clean_witness :
  Str.contains final_answer_open (Str.of_string "b") = false /\
  Str.contains final_answer_close (Str.of_string "b") = false /\
  Str.trimmed (Str.of_string "b").
Proof.
  exact (extract_final_answer_clean
           (Str.of_string "a<final_answer> b <final_answer>c</final_answer>")
           (Str.of_string "b") eq_refl eq_refl).
Defined.

Lemma find_tag_after_clean (c : N) (sep' a r : Str.t) :
  ~ In c sep' -> Str.contains (c :: sep') a = false ->
  Str.find (c :: sep') (a ++ (c :: sep') ++ r) = Some (a, r).
Proof.
  intros Hc Ha. simpl app. rewrite (find_app_clean c sep' a (sep' ++ r) Hc Ha).
  change (c :: sep' ++ r) with ((c :: sep') ++ r). rewrite find_here.
  now rewrite app_nil_r.
Qed.

(** The closing tag is not the start of an opening tag. *)
Lemma before_open_keeps_close (body post : Str.t) :
  Str.contains final_answer_open body = false ->
  exists post1,
    Str.before final_answer_open (body ++ final_answer_close ++ post)
    = body ++ final_answer_close ++ post1.
Proof.
  intros Hb. unfold Str.before.
  destruct final_answer_open_cons as [Eo Ho].
  destruct final_answer_close_cons as [Ec Hc].
  rewrite Ec. simpl app. rewrite Eo in *.
  rewrite (find_app_clean _ _ body _ Ho Hb).
  rewrite find_eq.
  replace (Str.startswith (60%N :: Str.of_string "/final_answer>" ++ post)
             (60%N :: Str.of_string "final_answer>")) with false by reflexivity.
  rewrite (find_app_skip 60%N _ (Str.of_string "/final_answer>") post Hc).
  destruct (Str.find (60%N :: Str.of_string "final_answer>") post) as [[b r]|].
  - now exists b.
  - now exists post.
Qed.

(** X7.  An answer wrapped in the tags comes back trimmed: for a text
    [pre <final_answer> body </final_answer> post] whose [pre] and [body]
    do not hold the opening tag and whose [body] does not hold the
    closing tag, [extract_final_answer] returns [body.strip()], whatever
    [post] is. *)
Theorem extract_final_answer_round_trip (pre body post : Str.t) :
  Str.contains final_answer_open pre = false ->
  Str.contains final_answer_open body = false ->
  Str.contains final_answer_close body = false ->
  extract_final_answer
    (pre ++ final_answer_open ++ body ++ final_answer_close ++ post)
  = Value (Str.strip body).
Proof.
  intros Hpre Hbo Hbc.
  destruct final_answer_open_cons as [Eo Ho].
  destruct final_answer_close_cons as [Ec Hc].
  assert (F : Str.find final_answer_open
                (pre ++ final_answer_open ++ body ++ final_answer_close ++ post)
              = Some (pre, body ++ final_answer_close ++ post)).
  { rewrite Eo in *. now apply find_tag_after_clean. }
  rewrite (extract_tagged _ _ _ F).
  destruct (before_open_keeps_close body post Hbo) as [post1 E]. rewrite E.
  do 2 f_equal. unfold Str.before.
  assert (F2 : Str.find final_answer_close (body ++ final_answer_close ++ post1)
               = Some (body, post1)).
  { rewrite Ec in *. now apply find_tag_after_clean. }
  now rewrite F2.
Qed.

Lemma extract_final_answer_round_trip_witness :
  extract_final_answer
    (Str.of_string "<think>x</think> " ++ final_answer_open
     ++ Str.of_string " Pima County " ++ final_answer_close
     ++ Str.of_string " <final_answer>")
  = Value (Str.of_string "Pima County").
Proof.
  exact (extract_final_answer_round_trip
           (Str.of_string "<think>x</think> ") (Str.of_string " Pima County ")
           (Str.of_string " <final_answer>") eq_refl eq_refl eq_refl).
Defined.

Lemma split_upto_last_after (c : N) (sep' answer : Str.t) :
  ~ In c sep' -> Str.contains (c :: sep') answer = false ->
  forall n pre,
    (List.length (pre ++ (c :: sep') ++ answer) <= n)%nat ->
    last (Str.split_upto n (c :: sep') (pre ++ (c :: sep') ++ answer)) [] = answer.
Proof.
  intros Hc Ha. induction n as [|n IH]; intros pre Hn.
  - rewrite !length_app in Hn. simpl in Hn. lia.
  - rewrite split_upto_S.
    assert (Hans : forall k, Str.split_upto k (c :: sep') answer = [answer]).
    { intros [|k]; [reflexivity|]. rewrite split_upto_S.
      unfold Str.contains in Ha.
      destruct (Str.find (c :: sep') answer) as [[b a]|]; [discriminate | reflexivity]. }
    destruct (Str.contains (c :: sep') pre) eqn:Hpre.
    + destruct (contains_find _ _ Hpre) as (b & a & F).
      rewrite (find_app_Some _ pre _ b a F).
      assert (Hlt := find_shorter (c :: sep') pre b a ltac:(discriminate) F).
      assert (Hlast : forall l, l <> [] -> last (b :: l) [] = last l [] :> Str.t).
      { intros [|x l] Hl; [congruence | reflexivity]. }
      rewrite Hlast by apply split_upto_not_nil.
      apply IH. rewrite !length_app in *. simpl in *. lia.
    + rewrite (find_tag_after_clean c sep' pre answer Hc Hpre).
      now rewrite Hans.
Qed.

(** X8.  With no [<final_answer>] tag but a [<think>] tag in the text,
    [extract_final_answer] returns what follows the last [</think>],
    trimmed; the answer never holds [</think>].  When the reasoning is
    not closed, that is the whole text, trimmed, its [<think>] tag
    included. *)
Theorem extract_final_answer_think (text : Str.t) :
  Str.contains final_answer_open text = false ->
  Str.contains think_open text = true ->
  (exists answer,
      extract_final_answer text = Value answer /\
      Str.contains think_close answer = false /\ Str.trimmed answer) /\
  (forall pre tail,
      text = pre ++ think_close ++ tail ->
      Str.contains think_close tail = false ->
      extract_final_answer text = Value (Str.strip tail)) /\
  (Str.contains think_close text = false ->
   extract_final_answer text = Value (Str.strip text)).
Proof.
  intros H1 H2. rewrite (extract_think text H1 H2).
  destruct think_close_cons as [Ec Hc].
  split; [|split].
  - eexists. split; [reflexivity|]. split; [|apply strip_trimmed].
    destruct (strip_part (last (Str.split_upto (List.length text) think_close text) []))
      as (l & r & E).
    apply (contains_part think_close l _ r). rewrite <- E.
    apply split_upto_last_clean; [apply think_close_not_nil | lia].
  - intros pre tail -> Ht. do 2 f_equal. rewrite Ec in *.
    now apply split_upto_last_after.
  - intros Hn. do 2 f_equal. destruct text as [|d text]; [reflexivity|].
    change (List.length (d :: text)) with (S (List.length text)).
    rewrite split_upto_S. unfold Str.contains in Hn.
    destruct (Str.find think_close (d :: text)) as [[b a]|]; [discriminate | reflexivity].
Qed.

Lemma extract_final_answer_think_witness :
  extract_final_answer (Str.of_string "<think>a</think> no </think>  yes ")
  = Value (Str.of_string "yes") /\
  extract_final_answer (Str.of_string " <think>unclosed ")
  = Value (Str.of_string "<think>unclosed").
Proof.
  split.
  - exact (proj1 (proj2 (extract_final_answer_think
                           (Str.of_string "<think>a</think> no </think>  yes ")
                           eq_refl eq_refl))
             (Str.of_string "<think>a</think> no ") (Str.of_string "  yes ")
             eq_refl eq_refl).
  - exact (proj2 (proj2 (extract_final_answer_think
                           (Str.of_string " <think>unclosed ") eq_refl eq_refl))
             eq_refl).
Defined.

(* ================================================================== *)
(** * Missing columns and labels *)

(** X9.  For a column other than the county column, which every loaded
    frame has and [columns] does not list, [iqr_outliers] raises exactly
    when the frame has no column of that name, whatever the data; when it
    returns, the frame of outliers has the columns of the frame it was
    given. *)
Theorem iqr_outliers_raises_iff (df : DataFrame.t) (col : string) :
  col <> "county" ->
  ((exists e, iqr_outliers df col = Raise e) <->
   DataFrame.has_column df col = false) /\
  (forall cutoff outliers,
      iqr_outliers df col = Return (cutoff, outliers) ->
      DataFrame.columns outliers = DataFrame.columns df).
Proof.
  intros _.
  destruct (DataFrame.has_column df col) eqn:Hcol.
  - rewrite (iqr_outliers_unfold df col Hcol). cbv zeta.
    destruct (Series.empty _); split.
    + split; [intros [e H]; discriminate | discriminate].
    + now intros cutoff outliers [= <- <-].
    + split; [intros [e H]; discriminate | discriminate].
    + now intros cutoff outliers [= <- <-].
  - unfold iqr_outliers, DataFrame.getitem. rewrite Hcol. split.
    + split; [reflexivity | eauto].
    + discriminate.
Qed.

Lemma iqr_outliers_raises_iff_witness :
  exists e, iqr_outliers example_table "beds_per_10k" = Raise e.
Proof.
  apply (proj1 (iqr_outliers_raises_iff example_table "beds_per_10k"
                  ltac:(discriminate))).
  reflexivity.
Defined.

Lemma loc_labels_missing (df : DataFrame.t) (labels : list nat) (l : nat) :
  In l labels -> ~ In l (map label (DataFrame.rows df)) ->
  DataFrame.loc_labels df labels = Raise KeyError.
Proof.
  intros Hin Hl. induction labels as [|l' labels IH]; [contradiction|].
  simpl. unfold DataFrame.loc_label.
  destruct (filter (fun r => Nat.eqb (label r) l') (DataFrame.rows df))
    as [|r rs] eqn:Ef; [reflexivity|].
  destruct Hin as [->|Hin].
  - exfalso. apply Hl.
    assert (Hr : In r (filter (fun r => Nat.eqb (label r) l) (DataFrame.rows df)))
      by (rewrite Ef; now left).
    apply filter_In in Hr. destruct Hr as [Hr E]. apply Nat.eqb_eq in E.
    rewrite <- E. now apply in_map.
  - now rewrite (IH Hin).
Qed.

(** X10.  For a variable other than the county column and a series with
    a value, [interpretation_univariate] raises exactly when the frame has
    no column named [var] or a value of the series sits under an index
    label the frame does not have; it raises before anything is
    displayed. *)
Theorem interpretation_univariate_raises_iff
    (var : string) (series : Series.t) (df : DataFrame.t) :
  var <> "county" ->
  Series.empty (Series.dropna series) = false ->
  ((exists e, result (interpretation_univariate var series df) = Raise e) <->
   DataFrame.has_column df var = false \/
   exists l, In l (Series.index (Series.dropna series)) /\
             ~ In l (map label (DataFrame.rows df))) /\
  (forall e, result (interpretation_univariate var series df) = Raise e ->
             calls (interpretation_univariate var series df) = []).
Proof.
  intros _ Hne.
  set (labels := Series.index (Series.sort_values (Series.dropna series))).
  assert (Hperm : forall l, In l labels <-> In l (Series.index (Series.dropna series))).
  { intros l. unfold labels, Series.index, Series.sort_values.
    split; apply Permutation_in, Permutation_map;
      [apply Permutation_sym|]; apply sort_perm. }
  destruct (DataFrame.loc df labels var) as [sorted_df|e] eqn:Hloc.
  - rewrite (interpretation_univariate_calls var series df sorted_df Hne Hloc).
    split; [|discriminate]. split; [intros [e H]; discriminate|].
    unfold DataFrame.loc in Hloc. intros [Hcol | (l & Hl & Hnot)].
    + rewrite Hcol in Hloc. discriminate.
    + destruct (DataFrame.has_column df var); [|discriminate].
      rewrite (loc_labels_missing df labels l) in Hloc; [discriminate | | exact Hnot].
      now apply Hperm.
  - rewrite (interpretation_univariate_raises var series df e Hne Hloc).
    split; [|reflexivity]. split; [|intros _; now exists e]. intros _.
    unfold DataFrame.loc in Hloc.
    destruct (DataFrame.has_column df var); [|now left]. right.
    destruct (Forall_Exists_dec (fun l => In l (map label (DataFrame.rows df)))
                (fun l => in_dec Nat.eq_dec l (map label (DataFrame.rows df))) labels)
      as [Hall | Hex].
    + rewrite Forall_forall in Hall.
      destruct (loc_labels_total df labels Hall) as [rs E].
      rewrite E in Hloc. discriminate.
    + apply Exists_exists in Hex. destruct Hex as (l & Hl & Hnot).
      exists l. split; [now apply Hperm | exact Hnot].
Qed.

Lemma interpretation_univariate_raises_iff_witness :
  exists e,
    result (interpretation_univariate "value"
              [(7%nat, Some 1); (0%nat, Some 2)] single_row_table) = Raise e.
Proof.
  apply (proj1 (interpretation_univariate_raises_iff "value"
                  [(7%nat, Some 1); (0%nat, Some 2)] single_row_table
                  ltac:(discriminate) eq_refl)).
  right. exists 7%nat. split; [now left|]. simpl. intuition discriminate.
Defined.

(** X11.  [theme_description] describes exactly the themes of
    [THEME_VARS]: its answer is empty for every other name and for none
    of them. *)
Theorem theme_description_themes (theme : string) :
  theme_description theme <> "" <-> In theme (keys THEME_VARS).
Proof.
  unfold theme_description. simpl.
  repeat match goal with
         | |- context [String.eqb theme ?k] =>
             let E := fresh "E" in
             destruct (String.eqb theme k) eqn:E;
             [apply String.eqb_eq in E; subst theme;
              split; [intros _; tauto | intros _; discriminate]
             |apply String.eqb_neq in E]
         end.
  split; [congruence|]. intros [H|[H|[H|[H|[]]]]]; congruence.
Qed.

(* ================================================================== *)
(** * The page without a table or without a metric *)

(** X13.  When no table was loaded the page shows its title and
    introduction and returns.  When the table has none of the variables
    of [EDA_VARS] as a column, the page shows the number of counties and
    the error that no variables were found, and returns; it does not ask
    either widget. *)
Theorem render_without_metrics (radio selectbox : list string -> string) :
  render_exploratory_eda radio selectbox None
  = ([ st_title "Exploratory EDA: Heat, Population, SVI, Access to Transportation and State-licensed Hospital.";
       st_write [Lit "This section explores how Arizona counties differ in hospital capacity, social vulnerability, and exposure to heat. The exploratory view focuses on one variable at a time so it is easy to see which counties are consistently better or worse off."] ],
     Return tt)
  /\
  forall df : DataFrame.t,
    (forall v, In v EDA_VARS -> DataFrame.has_column df v = false) ->
    render_exploratory_eda radio selectbox (Some df)
    = ((calls (render_exploratory_eda radio selectbox None)
        ++ [ st_caption [Lit "Loaded data for "; Count (List.length (DataFrame.rows df));
                         Lit " counties in Arizona."];
             st_markdown [Lit "---"];
             st_subheader "1. Click to choose a theme and metric";
             st_error "No variables found. Check EDA_VARS and column mappings." ]),
       Return tt).
Proof.
  split; [reflexivity|]. intros df H.
  unfold render_exploratory_eda.
  replace (filter (DataFrame.has_column df) EDA_VARS) with (@nil string).
  - reflexivity.
  - symmetry. now apply filter_none.
Qed.

Lemma render_without_metrics_witness :
  result (render_exploratory_eda first_option first_option (Some example_table))
  = Return tt /\
  List.length (calls (render_exploratory_eda first_option first_option
                        (Some example_table))) = 6%nat.
Proof.
  rewrite (proj2 (render_without_metrics first_option first_option) example_table).
  - split; reflexivity.
  - simpl. intros v H. repeat (destruct H as [<-|H]; [reflexivity|]). contradiction.
Defined.

(* ================================================================== *)
(** * The ranking chart *)

Lemma desc_leb_total (col : string) (r1 r2 : Row) :
  DataFrame.desc_leb col r1 r2 = true \/ DataFrame.desc_leb col r2 r1 = true.
Proof.
  unfold DataFrame.desc_leb. destruct (cell r1 col), (cell r2 col);
    auto using Qle_bool_total.
Qed.

Lemma desc_leb_trans (col : string) (r1 r2 r3 : Row) :
  DataFrame.desc_leb col r1 r2 = true -> DataFrame.desc_leb col r2 r3 = true ->
  DataFrame.desc_leb col r1 r3 = true.
Proof.
  unfold DataFrame.desc_leb. destruct (cell r1 col), (cell r2 col), (cell r3 col);
    try discriminate; auto.
  intros H1 H2. eapply Qle_bool_trans; eassumption.
Qed.

Lemma StronglySorted_map_in {A B : Type} (R : A -> A -> Prop) (R' : B -> B -> Prop)
    (f : A -> B) (l : list A) :
  (forall x y, In x l -> In y l -> R x y -> R' (f x) (f y)) ->
  StronglySorted R l -> StronglySorted R' (map f l).
Proof.
  intros Hf Hs. induction Hs as [|x l Hs IH Hx]; simpl; constructor.
  - apply IH. intros a b Ha Hb. apply Hf; now right.
  - rewrite Forall_forall in *. intros b Hb. apply in_map_iff in Hb.
    destruct Hb as (y & <- & Hy). apply Hf; [now left | now right | now apply Hx].
Qed.

Lemma bucket_top_inv (q1 q3 x : Q) :
  bucket (Some q1) (Some q3) (Some x) = "Top 25%" -> q3 <= x.
Proof.
  intros H. destruct (bucket_rule q1 q3 x) as (_ & Hb & Hm).
  destruct (Qlt_le_dec x q3) as [Hlt|Hge]; [|exact Hge].
  destruct (Qlt_le_dec q1 x) as [H1|H1].
  - rewrite (Hm Hlt H1) in H. discriminate.
  - rewrite (Hb Hlt H1) in H. discriminate.
Qed.

Lemma bucket_bottom_inv (q1 q3 x : Q) :
  bucket (Some q1) (Some q3) (Some x) = "Bottom 25%" -> x < q3 /\ x <= q1.
Proof.
  intros H. destruct (bucket_rule q1 q3 x) as (Ht & _ & Hm).
  destruct (Qlt_le_dec x q3) as [Hlt|Hge].
  - split; [exact Hlt|]. destruct (Qlt_le_dec q1 x) as [H1|H1]; [|exact H1].
    rewrite (Hm Hlt H1) in H. discriminate.
  - rewrite (Ht Hge) in H. discriminate.
Qed.

Lemma numbers_column_In (df : DataFrame.t) (var : string) (y : Q) :
  In y (Series.numbers (DataFrame.column df var)) <->
  exists r, In r (DataFrame.rows df) /\ cell r var = Some y.
Proof.
  unfold DataFrame.column. induction (DataFrame.rows df) as [|r rs IH]; simpl.
  - split; [contradiction | intros (r & [] & _)].
  - destruct (cell r var) as [v|] eqn:E; simpl; rewrite IH; split.
    + intros [<-|(r' & Hr' & E')]; [exists r; auto | exists r'; auto].
    + intros (r' & [<-|Hr'] & E'); [left; congruence | right; eauto].
    + intros (r' & Hr' & E'). eauto.
    + intros (r' & [<-|Hr'] & E'); [congruence | eauto].
Qed.

(** X14.  The chart of the page is a ranking: it has a bar, the bars go
    from the highest value to the lowest, and no bar is followed by a bar
    of a higher group. *)
Theorem chart_is_a_ranking
    (radio selectbox : list string -> string) (df : DataFrame.t) (c : chart) :
  In (st_altair_chart c) (calls (render_exploratory_eda radio selectbox (Some df))) ->
  StronglySorted
    (fun b1 b2 => exists x y,
         snd (fst b1) = Some x /\ snd (fst b2) = Some y /\ y <= x)
    (bars c) /\
  StronglySorted
    (fun b1 b2 =>
       (snd b2 = "Top 25%" -> snd b1 = "Top 25%") /\
       (snd b1 = "Bottom 25%" -> snd b2 = "Bottom 25%"))
    (bars c) /\
  bars c <> [].
Proof.
  intros H.
  destruct (render_chart radio selectbox df c H) as (var & Hcol & Hne & Hbars).
  destruct (quartiles_of_numbers (Series.dropna (DataFrame.column df var)))
    as (q1 & m & q3 & E1 & _ & E3 & H1 & H3).
  { rewrite numbers_dropna. now apply not_empty_numbers. }
  rewrite E1, E3 in Hbars.
  set (present := filter (fun r => notna (cell r var)) (DataFrame.rows df)) in *.
  set (S := sort (DataFrame.desc_leb var) present) in *.
  assert (Hs : StronglySorted (le_of (DataFrame.desc_leb var)) S).
  { apply sort_sorted; [apply desc_leb_total | apply desc_leb_trans]. }
  assert (Hval : forall r, In r S -> exists x, cell r var = Some x).
  { intros r Hr.
    apply (Permutation_in _ (Permutation_sym (sort_perm _ present))) in Hr.
    apply filter_In in Hr. destruct Hr as [_ Hr].
    destruct (cell r var) as [x|]; [now exists x | discriminate]. }
  assert (Hord : forall r1 r2, In r1 S -> In r2 S ->
             le_of (DataFrame.desc_leb var) r1 r2 ->
             exists x y, cell r1 var = Some x /\ cell r2 var = Some y /\ y <= x).
  { intros r1 r2 Hr1 Hr2 Hle.
    destruct (Hval r1 Hr1) as [x Hx]. destruct (Hval r2 Hr2) as [y Hy].
    exists x, y. split; [exact Hx|]. split; [exact Hy|].
    unfold le_of, DataFrame.desc_leb in Hle. rewrite Hx, Hy in Hle.
    now apply Qle_bool_iff. }
  rewrite Hbars. split; [|split].
  - apply (StronglySorted_map_in (le_of (DataFrame.desc_leb var))); [|exact Hs].
    intros r1 r2 Hr1 Hr2 Hle. simpl. now apply Hord.
  - apply (StronglySorted_map_in (le_of (DataFrame.desc_leb var))); [|exact Hs].
    intros r1 r2 Hr1 Hr2 Hle. simpl.
    destruct (Hord r1 r2 Hr1 Hr2 Hle) as (x & y & Hx & Hy & Hyx).
    rewrite Hx, Hy. split.
    + intros Ht. apply bucket_top_inv in Ht. apply (bucket_rule q1 q3 x). lra.
    + intros Hb. apply bucket_bottom_inv in Hb. apply (bucket_rule q1 q3 y); lra.
  - assert (Hr : exists r, In r S).
    { destruct (Series.numbers (DataFrame.column df var)) as [|y ys] eqn:Ey.
      - exfalso. now apply (not_empty_numbers _ Hne).
      - destruct (proj1 (numbers_column_In df var y)) as (r & Hr & Hc).
        { rewrite Ey. now left. }
        exists r. apply (Permutation_in _ (sort_perm _ present)).
        apply filter_In. split; [exact Hr|]. now rewrite Hc. }
    destruct Hr as (r & Hr). destruct S; [contradiction | simpl; discriminate].
Qed.

Lemma chart_is_a_ranking_witness :
  exists c,
    In (st_altair_chart c)
       (calls (render_exploratory_eda first_option first_option (Some page_table))) /\
    bars c <> [].
Proof.
  set (c := mkChart
              [("D", Some 100, "Top 25%"); ("A", Some 7, "Middle");
               ("C", Some 3, "Bottom 25%")]
              "Beds per 10k residents").
  assert (H : In (st_altair_chart c)
                (calls (render_exploratory_eda first_option first_option
                          (Some page_table)))).
  { vm_compute. do 8 right. left. reflexivity. }
  destruct (chart_is_a_ranking first_option first_option page_table c H)
    as (_ & _ & Hne).
  exists c. auto.
Defined.

(* ================================================================== *)
(** * The table of outliers *)

Lemma iqr_outliers_columns
    (df : DataFrame.t) (col : string) (cutoff : float) (outliers : DataFrame.t) :
  iqr_outliers df col = Return (cutoff, outliers) ->
  DataFrame.has_column df col = true /\
  DataFrame.columns outliers = DataFrame.columns df.
Proof.
  intros H.
  assert (Hcol : DataFrame.has_column df col = true).
  { unfold iqr_outliers, DataFrame.getitem in H.
    destruct (DataFrame.has_column df col); [reflexivity | discriminate]. }
  split; [exact Hcol|].
  rewrite (iqr_outliers_unfold df col Hcol) in H. cbv zeta in H.
  destruct (Series.empty _); now injection H as <- <-.
Qed.

Lemma interpretation_univariate_no_dataframe
    (var : string) (series : Series.t) (df : DataFrame.t) (x : table) :
  ~ In (st_dataframe x) (calls (interpretation_univariate var series df)).
Proof.
  destruct (interpretation_univariate_cases var series df)
    as [[_ E] | [[_ (e & _ & E)] | [He (sorted_df & Hloc)]]].
  - rewrite E. simpl. intuition discriminate.
  - rewrite E. simpl. tauto.
  - rewrite (interpretation_univariate_calls var series df sorted_df He Hloc).
    simpl. intuition discriminate.
Qed.

Ltac step_table H :=
  apply in_calls_bind in H;
  destruct H as [H | (? & ? & H)];
  [ first [ now apply interpretation_univariate_no_dataframe in H
          | simpl in H; intuition discriminate ]
  | cbv beta zeta in H ].

(** The one [st.dataframe] of the page shows the outliers of the selected
    column, highest first. *)
Lemma render_dataframe
    (radio selectbox : list string -> string) (df : DataFrame.t) (x : table) :
  In (st_dataframe x) (calls (render_exploratory_eda radio selectbox (Some df))) ->
  exists var cutoff outliers,
    iqr_outliers df var = Return (cutoff, outliers) /\
    DataFrame.empty outliers = false /\ isnan cutoff = false /\
    x = renamed (DataFrame.mk [var] (sort (DataFrame.desc_leb var) (DataFrame.rows outliers)))
          var (get VAR_LABELS var var).
Proof.
  intros H. unfold render_exploratory_eda in H.
  repeat step_table H.
  match type of H with
  | context [match ?t with [] => _ | _ :: _ => _ end] => destruct t as [|kv kvs]
  end; [simpl in H; intuition discriminate|].
  repeat step_table H.
  match goal with
  | E : result (lift (DataFrame.getitem df ?v)) = Return ?s |- _ =>
      set (var := v) in *; rename s into column; rename E into Hcolumn
  end.
  simpl in Hcolumn. unfold DataFrame.getitem in Hcolumn.
  destruct (DataFrame.has_column df var) eqn:Hcol; [|discriminate].
  injection Hcolumn as <-.
  destruct (Series.empty (Series.dropna (DataFrame.column df var))) eqn:Hne;
    [simpl in H; intuition discriminate|].
  repeat step_table H.
  match goal with
  | E : result (lift (iqr_outliers df var)) = Return ?r |- _ =>
      destruct r as [cutoff outliers]; rename E into Hout; simpl in Hout
  end.
  cbn [fst snd] in H.
  destruct (DataFrame.empty outliers || isnan cutoff) eqn:Hguard;
    [simpl in H; intuition discriminate|].
  apply orb_false_iff in Hguard. destruct Hguard as [Hempty Hnan].
  step_table H.
  apply in_calls_bind in H.
  destruct H as [H | (selected & Hsel & H)]; [simpl in H; contradiction|].
  apply in_calls_bind in H.
  destruct H as [H | (sorted & Hsort & H)]; [simpl in H; contradiction|].
  simpl in H. destruct H as [H|[]]. injection H as <-.
  exists var, cutoff, outliers.
  split; [exact Hout|]. split; [exact Hempty|]. split; [exact Hnan|].
  assert (Hcols : DataFrame.columns outliers = DataFrame.columns df)
    by exact (proj2 (iqr_outliers_columns df var cutoff outliers Hout)).
  simpl in Hsel. unfold DataFrame.getitem_cols, DataFrame.has_column in Hsel.
  rewrite Hcols in Hsel. fold (DataFrame.has_column df var) in Hsel.
  rewrite Hcol in Hsel. injection Hsel as <-.
  simpl in Hsort. unfold DataFrame.sort_values_desc, DataFrame.has_column in Hsort.
  simpl in Hsort. rewrite String.eqb_refl in Hsort. simpl in Hsort.
  injection Hsort as <-. reflexivity.
Qed.

(** X15.  When the page shows a table of outliers, it is the table of
    the rows that [iqr_outliers] returned for the selected column: it is
    not empty, it goes from the highest value to the lowest, and every
    value in it is a number strictly above the cutoff. *)
Theorem outlier_table_shown
    (radio selectbox : list string -> string) (df : DataFrame.t) (x : table) :
  In (st_dataframe x) (calls (render_exploratory_eda radio selectbox (Some df))) ->
  exists var cutoff outliers,
    iqr_outliers df var = Return (Some cutoff, outliers) /\
    header x = ("County", get VAR_LABELS var var) /\
    body x <> [] /\
    Permutation (body x) (DataFrame.pairs outliers var) /\
    StronglySorted
      (fun p1 p2 => exists a b, snd p1 = Some a /\ snd p2 = Some b /\ b <= a)
      (body x) /\
    Forall (fun p => exists a, snd p = Some a /\ cutoff < a) (body x).
Proof.
  intros H.
  destruct (render_dataframe radio selectbox df x H)
    as (var & cutoff & outliers & Hout & Hempty & Hnan & ->).
  destruct cutoff as [cutoff|]; [|discriminate].
  exists var, cutoff, outliers. split; [exact Hout|]. split; [reflexivity|].
  unfold renamed, DataFrame.pairs. simpl body. simpl DataFrame.rows.
  set (S := sort (DataFrame.desc_leb var) (DataFrame.rows outliers)).
  assert (Hperm : Permutation S (DataFrame.rows outliers))
    by apply Permutation_sym, sort_perm.
  assert (Hval : forall r, In r S -> exists a, cell r var = Some a /\ cutoff < a).
  { intros r Hr. apply (Permutation_in _ Hperm) in Hr.
    destruct (iqr_outliers_columns df var _ _ Hout) as [Hcol _].
    rewrite (iqr_outliers_unfold df var Hcol) in Hout. cbv zeta in Hout.
    destruct (Series.empty _); [discriminate|].
    injection Hout as Hc <-. simpl in Hr. apply filter_In in Hr.
    destruct Hr as [_ Hr]. rewrite Hc in Hr. now apply fgt_Some in Hr. }
  split; [|split; [|split]].
  - intros E. apply map_eq_nil in E.
    assert (Hnil : DataFrame.rows outliers = [])
      by (apply Permutation_nil; rewrite <- E; now apply Permutation_sym).
    unfold DataFrame.empty in Hempty. now rewrite Hnil in Hempty.
  - now apply Permutation_map.
  - apply (StronglySorted_map_in (le_of (DataFrame.desc_leb var))).
    + intros r1 r2 Hr1 Hr2 Hle. simpl.
      destruct (Hval r1 Hr1) as (a & Ha & _). destruct (Hval r2 Hr2) as (b & Hb & _).
      exists a, b. split; [exact Ha|]. split; [exact Hb|].
      unfold le_of, DataFrame.desc_leb in Hle. rewrite Ha, Hb in Hle.
      now apply Qle_bool_iff.
    + apply sort_sorted; [apply desc_leb_total | apply desc_leb_trans].
  - apply Forall_forall. intros p Hp. apply in_map_iff in Hp.
    destruct Hp as (r & <- & Hr). simpl. now apply Hval.
Qed.

Lemma outlier_table_shown_witness :
  exists cutoff outliers,
    iqr_outliers outlier_page_table "beds_per_10k" = Return (Some cutoff, outliers) /\
    Forall (fun p : string * float => exists a, snd p = Some a /\ cutoff < a)
           [("E", Some 1000)].
Proof.
  set (x := mkTable ("County", "Beds per 10k residents") [("E", Some 1000)]).
  assert (H : In (st_dataframe x)
                (calls (render_exploratory_eda first_option first_option
                          (Some outlier_page_table)))).
  { vm_compute. repeat (first [left; reflexivity | right]). }
  destruct (outlier_table_shown first_option first_option outlier_page_table x H)
    as (var & cutoff & outliers & Hout & Hh & _ & _ & _ & Hall).
  injection Hh as Hh.
  assert (Hvar : var = "beds_per_10k").
  { destruct (iqr_outliers outlier_page_table var) as [r|e] eqn:E; [|discriminate].
    unfold iqr_outliers, DataFrame.getitem, DataFrame.has_column in E.
    simpl in E. destruct (String.eqb var "beds_per_10k") eqn:Ev; [|discriminate].
    now apply String.eqb_eq in Ev. }
  subst var. exists cutoff, outliers. split; [exact Hout | exact Hall].
Defined.

(* ================================================================== *)
(** * What the widgets are asked *)

Lemma lookup_In {V : Type} (d : dict V) (k : string) (v : V) :
  lookup d k = Some v -> In (k, v) d.
Proof.
  induction d as [|[k' v'] d IH]; simpl; [discriminate|].
  destruct (String.eqb k k') eqn:E.
  - apply String.eqb_eq in E. subst. intros [= ->]. now left.
  - intros H. right. now apply IH.
Qed.

Lemma theme_var_map_offers
    (has : string -> bool) (eda : list string) (themes : dict (list string))
    (theme : string) (vars : list string) :
  In (theme, vars)
     (filter (fun kv : string * list string =>
                match snd kv with [] => false | _ :: _ => true end)
        (map (fun kv : string * list string =>
                (fst kv, filter (fun v => mem v (filter has eda)) (snd kv)))
             themes)) ->
  In theme (keys themes) /\ vars <> [] /\
  forall v, In v vars -> In v eda /\ has v = true.
Proof.
  intros H. apply filter_In in H. destruct H as [H Hne].
  apply in_map_iff in H. destruct H as (kv & E & Hkv). injection E as <- <-.
  split; [unfold keys; now apply in_map|].
  split; [intros E; simpl in Hne; now rewrite E in Hne|].
  intros v Hv. apply filter_In in Hv. destruct Hv as [_ Hv].
  apply mem_In in Hv. now apply filter_In in Hv.
Qed.

Lemma bind_lift_Return {A B : Type} (a : A) (k : A -> st B) :
  bind (lift (Return a)) k = k a.
Proof. unfold bind, lift. now destruct (k a). Qed.

Lemma bind_lift_Raise {A B : Type} (e : exception) (k : A -> st B) :
  bind (lift (Raise e)) k = ([], Raise e).
Proof. reflexivity. Qed.

(** X16.  The page asks the theme widget only to choose among themes of
    [THEME_VARS], at least one, and the metric widget only among
    variables of [EDA_VARS] that are columns of the loaded table, at
    least one: two pairs of widgets that agree on such lists of options
    give the same page. *)
Theorem widgets_asked_about_loaded_metrics
    (radio radio' selectbox selectbox' : list string -> string) (df : DataFrame.t) :
  (forall options,
      options <> [] -> incl options (keys THEME_VARS) ->
      radio options = radio' options) ->
  (forall options,
      options <> [] ->
      (forall v, In v options -> In v EDA_VARS /\ DataFrame.has_column df v = true) ->
      selectbox options = selectbox' options) ->
  render_exploratory_eda radio selectbox (Some df)
  = render_exploratory_eda radio' selectbox' (Some df).
Proof.
  intros Hradio Hselect. unfold render_exploratory_eda. cbv zeta.
  match goal with
  | |- context [match ?x with [] => _ | _ :: _ => _ end] => set (tvm := x)
  end.
  assert (Htvm : forall theme vars, In (theme, vars) tvm ->
            In theme (keys THEME_VARS) /\ vars <> [] /\
            forall v, In v vars -> In v EDA_VARS /\ DataFrame.has_column df v = true)
    by (intros theme vars;
        apply (theme_var_map_offers (DataFrame.has_column df) EDA_VARS THEME_VARS)).
  destruct tvm as [|kv kvs]; [reflexivity|].
  assert (Hr : radio (keys (kv :: kvs)) = radio' (keys (kv :: kvs))).
  { apply Hradio; [discriminate|]. intros theme Hin. unfold keys in Hin.
    apply in_map_iff in Hin. destruct Hin as ([k v] & <- & Hkv).
    now apply (Htvm k v). }
  rewrite Hr.
  unfold getitem.
  destruct (lookup (kv :: kvs) (radio' (keys (kv :: kvs)))) as [theme_vars|] eqn:El.
  - rewrite !bind_lift_Return.
    destruct (Htvm _ _ (lookup_In _ _ _ El)) as (_ & Hne & Hvars).
    now rewrite (Hselect theme_vars Hne Hvars).
  - now rewrite !bind_lift_Raise.
Qed.

Lemma widgets_asked_about_loaded_metrics_witness :
  render_exploratory_eda first_option first_option (Some page_table)
  = render_exploratory_eda first_or_none first_or_none (Some page_table).
Proof.
  apply widgets_asked_about_loaded_metrics;
    intros [|o os] Hne _; solve [congruence | reflexivity].
Defined.

(* ================================================================== *)
(** * Binary64 *)

Section Binary64.

Import PrimFloat.

(** ** The order of the floats *)



(** ** The outlier rule *)




(** ** The max/min ratio *)

(** C5.  [interpretation_univariate] computes the quotient max/min in
    binary64 and writes the line about the ratio exactly when the minimum
    is above 0 and the quotient is above 1.0 and at most 10.0; the line
    shows that quotient.  Otherwise the text ends with the line about the
    lowest and the highest value.  For the table [(A,7)] the quotient is 1
    and no line about the ratio is written. *)
Theorem ratio_window :
  (forall (var : string) (series : B64.Series.t) (df : B64.DataFrame.t),
      B64.Series.empty (B64.Series.dropna series) = false ->
      B64.result (B64.interpretation_univariate var series df) = Return tt ->
      exists (vmin vmax r : PrimFloat.float) (shown : bool) (lines : B64.text),
        vmin = B64.Series.min (B64.Series.dropna series) /\
        vmax = B64.Series.max (B64.Series.dropna series) /\
        r = (vmax / vmin)%float /\
        shown = ((0 <? vmin)%float && ((1 <? r)%float && (r <=? 10)%float)) /\
        lines = B64.join [B64.Lit newline]
                  (B64.bullets (get VAR_LABELS var var)
                     (B64.Series.median (B64.Series.dropna series))
                     (B64.Series.quantile (B64.Series.dropna series) (1 # 4))
                     (B64.Series.quantile (B64.Series.dropna series) (3 # 4))
                     vmin vmax None) /\
        B64.written (B64.calls (B64.interpretation_univariate var series df))
        = [ [B64.Lit (var_explanation var)];
            (lines
             ++ if shown
                then [B64.Lit newline;
                      B64.Lit "- The highest county is about **";
                      B64.Fmt ",.1f" r;
                      B64.Lit " times** the lowest on this metric."]
                else [])%list;
            [B64.Lit (why_text var)];
            [B64.Lit (model_text var)] ])
  /\
  (B64.Series.min (B64.DataFrame.column B64.single_row_table "value") = 7%float /\
   B64.Series.max (B64.DataFrame.column B64.single_row_table "value") = 7%float /\
   (7 / 7)%float = 1%float /\
   B64.written
     (B64.calls (B64.interpretation_univariate "value"
                   (B64.DataFrame.column B64.single_row_table "value")
                   B64.single_row_table))
   = [ [B64.Lit "County-level summary for the metric shown on the chart."];
       B64.join [B64.Lit newline] (B64.bullets "value" 7 7 7 7 7 None);
       [B64.Lit "This metric captures one aspect of county-level risk or capacity that interacts with heat conditions."];
       [B64.Lit "- This variable can be included as a county-level feature after appropriate scaling or standardisation."] ]).
Proof.
  split.
  - intros var series df Hne Hres.
    do 5 eexists. do 5 (split; [reflexivity|]).
    revert Hres. unfold B64.interpretation_univariate. cbv zeta. rewrite Hne.
    destruct (B64.DataFrame.loc df _ var) as [sorted_df|e]; [intros _ | discriminate].
    cbn [B64.lift B64.bind B64.call B64.calls fst snd app B64.written].
    unfold B64.ratio_of.
    destruct (0 <? B64.Series.min (B64.Series.dropna series))%float;
      [|cbn [andb]; unfold B64.bullets; cbn [app B64.join]; reflexivity].
    cbv zeta.
    destruct (1 <? _)%float;
      [|cbn [andb]; unfold B64.bullets; cbn [app B64.join]; reflexivity].
    destruct (_ <=? 10)%float;
      [|cbn [andb]; unfold B64.bullets; cbn [app B64.join]; reflexivity].
    reflexivity.
  - repeat split; vm_compute; reflexivity.
Qed.

Lemma ratio_window_witness :
  exists lines,
    nth 1 (B64.written
             (B64.calls (B64.interpretation_univariate "value"
                           (B64.DataFrame.column B64.tenfold_table "value")
                           B64.tenfold_table))) []
    = (lines ++ [B64.Lit newline;
                 B64.Lit "- The highest county is about **";
                 B64.Fmt ",.1f" 10%float;
                 B64.Lit " times** the lowest on this metric."])%list.
Proof.
  destruct (proj1 ratio_window "value"
              (B64.DataFrame.column B64.tenfold_table "value") B64.tenfold_table
              eq_refl eq_refl)
    as (vmin & vmax & r & shown & lines & -> & -> & -> & -> & _ & E).
  exists lines. rewrite E. reflexivity.
Defined.

(** ** Floats and their values *)









(** ** Quartiles *)





(** ** Minimum and maximum *)

Lemma SFcompare_opp (a b : SpecFloat.spec_float) :
  SpecFloat.SFcompare b a = option_map CompOpp (SpecFloat.SFcompare a b).
Proof.
  destruct a as [sa|sa| |sa ma ea], b as [sb|sb| |sb mb eb]; simpl;
    try reflexivity;
    try (destruct sa; reflexivity); try (destruct sb; reflexivity);
    try (destruct sa, sb; reflexivity).
  change (Pos.compare_cont Eq) with Pos.compare.
  rewrite (Z.compare_antisym ea eb), (Pos.compare_antisym ma mb).
  destruct sa, sb; try reflexivity;
    destruct (ea ?= eb)%Z; simpl; try reflexivity;
    destruct (ma ?= mb)%positive; reflexivity.
Qed.

Lemma SFleb_trans (a b c : SpecFloat.spec_float) :
  SpecFloat.SFleb a b = true -> SpecFloat.SFleb b c = true ->
  SpecFloat.SFleb a c = true.
Proof.
  unfold SpecFloat.SFleb.
  destruct a as [sa|sa| |sa ma ea], b as [sb|sb| |sb mb eb], c as [sc|sc| |sc mc ec];
    simpl; try discriminate; try reflexivity;
    try (destruct sa; try discriminate; try reflexivity);
    try (destruct sb; try discriminate; try reflexivity);
    try (destruct sc; try discriminate; try reflexivity);
    change (Pos.compare_cont Eq) with Pos.compare;
    destruct (Z.compare_spec ea eb), (Z.compare_spec eb ec), (Z.compare_spec ea ec);
    try discriminate; try reflexivity; try lia; subst;
    destruct (Pos.compare_spec ma mb), (Pos.compare_spec mb mc), (Pos.compare_spec ma mc);
    simpl; try discriminate; try reflexivity; try lia.
Qed.

Lemma leb_trans (a b c : PrimFloat.float) :
  (a <=? b)%float = true -> (b <=? c)%float = true -> (a <=? c)%float = true.
Proof. rewrite !FloatAxioms.leb_spec. apply SFleb_trans. Qed.

Lemma leb_refl (x : PrimFloat.float) :
  B64.notna x = true -> (x <=? x)%float = true.
Proof.
  unfold B64.notna, B64.isnan, is_nan. rewrite negb_involutive.
  rewrite FloatAxioms.eqb_spec, FloatAxioms.leb_spec.
  unfold SpecFloat.SFeqb, SpecFloat.SFleb.
  now destruct (SpecFloat.SFcompare _ _) as [[]|].
Qed.

Lemma ltb_leb (x y : PrimFloat.float) :
  (x <? y)%float = true -> (x <=? y)%float = true.
Proof.
  rewrite FloatAxioms.ltb_spec, FloatAxioms.leb_spec.
  unfold SpecFloat.SFltb, SpecFloat.SFleb.
  now destruct (SpecFloat.SFcompare _ _) as [[]|].
Qed.

(** Two numbers are comparable: when the one is not below the other, the
    other is at most the one. *)
Lemma not_ltb_leb (x y : PrimFloat.float) :
  B64.notna x = true -> B64.notna y = true ->
  (x <? y)%float = false -> (y <=? x)%float = true.
Proof.
  unfold B64.notna, B64.isnan, is_nan. rewrite !negb_involutive.
  rewrite !FloatAxioms.eqb_spec, FloatAxioms.ltb_spec, FloatAxioms.leb_spec.
  unfold SpecFloat.SFeqb, SpecFloat.SFltb, SpecFloat.SFleb.
  rewrite (SFcompare_opp (FloatOps.Prim2SF x) (FloatOps.Prim2SF y)).
  destruct (FloatOps.Prim2SF x) as [sx|sx| |sx mx ex];
    destruct (FloatOps.Prim2SF y) as [sy|sy| |sy my ey];
    cbn; try discriminate; intros _ _;
    try (destruct sx); try (destruct sy); cbn; try discriminate; try reflexivity;
    destruct (ex ?= ey)%Z; cbn; try discriminate; try reflexivity;
    destruct (Pos.compare_cont Eq mx my); cbn; try discriminate; reflexivity.
Qed.

Lemma b64_numbers_notna (s : B64.Series.t) (x : PrimFloat.float) :
  In x (B64.Series.numbers s) -> B64.notna x = true.
Proof.
  unfold B64.Series.numbers, B64.Series.dropna. intros H.
  apply in_map_iff in H. destruct H as (p & <- & Hp).
  apply filter_In in Hp. tauto.
Qed.

Lemma b64_dropna_idem (s : B64.Series.t) :
  B64.Series.dropna (B64.Series.dropna s) = B64.Series.dropna s.
Proof.
  unfold B64.Series.dropna. induction s as [|p s IH]; [reflexivity|].
  simpl. destruct (B64.notna (snd p)) eqn:E; [|exact IH].
  simpl. now rewrite E, IH.
Qed.

Lemma fold_min_attained (l : list PrimFloat.float) (v : PrimFloat.float) :
  Forall (fun x => B64.notna x = true) (v :: l) ->
  In (fold_left (fun m x => if (x <? m)%float then x else m) l v) (v :: l) /\
  forall x, In x (v :: l) ->
    (fold_left (fun m x => if (x <? m)%float then x else m) l v <=? x)%float = true.
Proof.
  revert v. induction l as [|y l IH]; intros v Hall.
  - simpl. split; [now left|]. intros x [<-|[]]. apply leb_refl.
    now inversion Hall.
  - inversion Hall as [|? ? Hv Hl]; subst. inversion Hl as [|? ? Hy Hl']; subst.
    cbn [fold_left]. destruct (y <? v)%float eqn:E.
    + destruct (IH y Hl) as [Hin Hle]. split.
      * destruct Hin as [<-|Hin]; [right; now left | right; now right].
      * intros x [<-|[<-|Hx]].
        -- apply leb_trans with y; [apply Hle; now left | now apply ltb_leb].
        -- apply Hle. now left.
        -- apply Hle. now right.
    + destruct (IH v (Forall_cons _ Hv Hl')) as [Hin Hle]. split.
      * destruct Hin as [<-|Hin]; [now left | right; now right].
      * intros x [<-|[<-|Hx]].
        -- apply Hle. now left.
        -- apply leb_trans with v; [apply Hle; now left | now apply not_ltb_leb].
        -- apply Hle. now right.
Qed.

Lemma fold_max_attained (l : list PrimFloat.float) (v : PrimFloat.float) :
  Forall (fun x => B64.notna x = true) (v :: l) ->
  In (fold_left (fun m x => if (m <? x)%float then x else m) l v) (v :: l) /\
  forall x, In x (v :: l) ->
    (x <=? fold_left (fun m x => if (m <? x)%float then x else m) l v)%float = true.
Proof.
  revert v. induction l as [|y l IH]; intros v Hall.
  - simpl. split; [now left|]. intros x [<-|[]]. apply leb_refl.
    now inversion Hall.
  - inversion Hall as [|? ? Hv Hl]; subst. inversion Hl as [|? ? Hy Hl']; subst.
    cbn [fold_left]. destruct (v <? y)%float eqn:E.
    + destruct (IH y Hl) as [Hin Hle]. split.
      * destruct Hin as [<-|Hin]; [right; now left | right; now right].
      * intros x [<-|[<-|Hx]].
        -- apply leb_trans with y; [now apply ltb_leb | apply Hle; now left].
        -- apply Hle. now left.
        -- apply Hle. now right.
    + destruct (IH v (Forall_cons _ Hv Hl')) as [Hin Hle]. split.
      * destruct Hin as [<-|Hin]; [now left | right; now right].
      * intros x [<-|[<-|Hx]].
        -- apply Hle. now left.
        -- apply leb_trans with v; [now apply not_ltb_leb | apply Hle; now left].
        -- apply Hle. now right.
Qed.

(** X12.  In binary64, for a series with a value, the minimum and the
    maximum that [interpretation_univariate] takes the quotient of are
    values of the series, infinities included, and every value that is
    not missing lies between them. *)
Theorem min_max_attained (series : B64.Series.t) :
  B64.Series.empty (B64.Series.dropna series) = false ->
  In (B64.Series.min (B64.Series.dropna series)) (B64.Series.numbers series) /\
  In (B64.Series.max (B64.Series.dropna series)) (B64.Series.numbers series) /\
  forall x, In x (B64.Series.numbers series) ->
    (B64.Series.min (B64.Series.dropna series) <=? x)%float = true /\
    (x <=? B64.Series.max (B64.Series.dropna series))%float = true.
Proof.
  intros Hne. unfold B64.Series.min, B64.Series.max.
  assert (En : B64.Series.numbers (B64.Series.dropna series) = B64.Series.numbers series)
    by (unfold B64.Series.numbers; now rewrite b64_dropna_idem).
  rewrite En.
  assert (Hall : Forall (fun x => B64.notna x = true) (B64.Series.numbers series))
    by (apply Forall_forall; apply b64_numbers_notna).
  destruct (B64.Series.numbers series) as [|v l] eqn:E.
  - exfalso. unfold B64.Series.numbers in E. apply map_eq_nil in E.
    rewrite E in Hne. discriminate.
  - destruct (fold_min_attained l v Hall) as [Hmin Hlo].
    destruct (fold_max_attained l v Hall) as [Hmax Hhi].
    split; [exact Hmin|]. split; [exact Hmax|]. intros x Hx. split; auto.
Qed.

Lemma min_max_attained_witness :
  (1 <=? 100)%float = true.
Proof.
  destruct (min_max_attained (B64.DataFrame.column B64.mixed_table "value") eq_refl)
    as (_ & _ & H).
  exact (proj1 (H 100%float ltac:(vm_compute; tauto))).
Defined.

End Binary64.
